(** * Hospital placement by hill climbing: a model of [hospitals.py]

    The development embeds the class [Space] of [hospitals/hospitals.py]:
    the grid state, the cost evaluator [get_cost], the neighbour generator
    [get_neighbors], the optimizer [hill_climb] and the driver
    [random_restart].  Python sets of cells are finite sets of pairs of
    integers, exceptions are an explicit result type, the attribute
    [self.hospitals] is threaded through as part of the state, and the
    module [random] is an explicit stream of draws. *)

From stdpp Require Import numbers gmap list.

Open Scope Z_scope.

(** ** Data *)

(** A cell is the tuple [(row, col)]; Python integers are unbounded. *)
Abbreviation cell := (Z * Z)%type.

(** A placement is a set of cells, as [self.hospitals] is. *)
Abbreviation placement := (gset cell).

(** The attributes set by [Space.__init__]. *)
Record Space : Type := mkSpace {
  height : Z;
  width : Z;
  num_hospitals : Z;
  houses : gset cell;
  hospitals : gset cell
}.

(** [Space(height, width, num_hospitals)]: both sets start empty. *)
Definition new_space (h w n : Z) : Space :=
  mkSpace h w n ∅ ∅.

(** [self.hospitals = P]. *)
Definition set_hospitals (s : Space) (P : placement) : Space :=
  mkSpace (height s) (width s) (num_hospitals s) (houses s) P.

(** The exceptions the modelled code can raise. *)
Inductive exn : Type :=
  | ValueError
  | TypeError
  | IndexError.

(** The result of evaluating a Python expression. *)
Inductive result (A : Type) : Type :=
  | Ok (a : A)
  | Raise (e : exn).
Arguments Ok {A} a.
Arguments Raise {A} e.

(** Sequencing: an exception of the first computation ends the second. *)
#[global] Instance result_bind : MBind result := λ A B k r,
  match r with
  | Ok a => k a
  | Raise e => Raise e
  end.

#[global] Instance result_ret : MRet result := λ A a, Ok a.

(** ** Grid state *)

(** [add_house]: [self.houses.add((row, col))], nothing else. *)
Definition add_house (s : Space) (row col : Z) : Space :=
  mkSpace (height s) (width s) (num_hospitals s)
          ({[ (row, col) ]} ∪ houses s) (hospitals s).

(** [range(n)] as a list. *)
Definition range (n : Z) : list Z := seqZ 0 n.

(** The set comprehension of [available_spaces]. *)
Definition grid_cells (s : Space) : gset cell :=
  list_to_set (row ← range (height s); col ← range (width s); [(row, col)]).

(** [available_spaces]: the grid minus the houses minus the hospitals. *)
Definition available_spaces (s : Space) : gset cell :=
  grid_cells s ∖ houses s ∖ hospitals s.

(** ** Cost evaluator *)

(** [abs(h[0] - hospital[0]) + abs(h[1] - hospital[1])]. *)
Definition distance (h hospital : cell) : Z :=
  Z.abs (h.1 - hospital.1) + Z.abs (h.2 - hospital.2).

(** The builtin [min] over an iterable: [ValueError] when it is empty. *)
Definition py_min (l : list Z) : result Z :=
  match l with
  | [] => Raise ValueError
  | x :: l' => Ok (foldl Z.min x l')
  end.

(** The builtin [sum] over a generator whose items may raise: the first
    item that raises ends the summation. *)
Fixpoint py_sum (l : list (result Z)) : result Z :=
  match l with
  | [] => Ok 0
  | r :: l' => x ← r; t ← py_sum l'; Ok (x + t)
  end.

(** [get_cost]: for each house the distance to the nearest hospital, summed. *)
Definition get_cost (s : Space) (P : placement) : result Z :=
  py_sum ((λ h, py_min (distance h <$> elements P)) <$> elements (houses s)).

(** ** Neighbour generator *)

Definition candidates (row col : Z) : list cell :=
  [(row - 1, col); (row + 1, col); (row, col - 1); (row, col + 1)].

(** The filter of the list comprehension in [get_neighbors]. *)
Definition valid (s : Space) (rc : cell) : Prop :=
  (0 ≤ rc.1 < height s) ∧ (0 ≤ rc.2 < width s)
  ∧ (rc ∉ houses s) ∧ (rc ∉ hospitals s).

#[global] Instance valid_dec s rc : Decision (valid s rc).
Proof. unfold valid. apply _. Defined.

Definition get_neighbors (s : Space) (row col : Z) : list cell :=
  filter (valid s) (candidates row col).

(** ** Randomness *)

(** The generator behind the module [random] is the stream of the draws it
    still has to make; an exhausted stream keeps drawing 0.  Every outcome
    of [random.sample] and [random.choice] is the outcome under some stream. *)
Abbreviation rng := (list nat).

Definition draw (g : rng) : nat * rng := (hd 0%nat g, tl g).

(** [random.choice(l)]: one element of [l]; [IndexError] when [l] is empty. *)
Definition random_choice {A : Type} (g : rng) (l : list A) : result A * rng :=
  let '(n, g') := draw g in
  match l !! (n mod length l)%nat with
  | Some x => (Ok x, g')
  | None => (Raise IndexError, g')
  end.

(** [k] elements of [pool] at distinct positions, in the order drawn. *)
Fixpoint pick {A : Type} (g : rng) (pool : list A) (k : nat) : list A * rng :=
  match k with
  | O => ([], g)
  | S k' =>
      let '(n, g') := draw g in
      let i := (n mod length pool)%nat in
      match pool !! i with
      | None => ([], g')
      | Some x => let '(xs, g'') := pick g' (delete i pool) k' in (x :: xs, g'')
      end
  end.

(** [random.sample(population, k)]: [ValueError] unless
    [0 <= k <= len(population)]. *)
Definition random_sample {A : Type} (g : rng) (population : list A) (k : Z)
  : result (list A) * rng :=
  if decide (0 ≤ k ≤ Z.of_nat (length population))
  then let '(xs, g') := pick g population (Z.to_nat k) in (Ok xs, g')
  else (Raise ValueError, g).

(** ** Hill-climbing optimizer *)

(** The two variables the inner loops of an iteration maintain. *)
Record scan_state : Type := mkScan {
  best_neighbor_cost : option Z;
  best_neighbors : list placement
}.

(** [neighbor = self.hospitals.copy(); neighbor.remove(hospital);
    neighbor.add(replacement)]. *)
Definition neighbor_of (P : placement) (hospital replacement : cell) : placement :=
  (P ∖ {[ hospital ]}) ∪ {[ replacement ]}.

(** The trial placements of an iteration, in the order of the two [for]s. *)
Definition trials (s : Space) : list placement :=
  hospital ← elements (hospitals s);
  replacement ← get_neighbors s hospital.1 hospital.2;
  [neighbor_of (hospitals s) hospital replacement].

(** The body of the inner loop for one trial placement. *)
Definition consider (s : Space) (st : scan_state) (neighbor : placement)
  : result scan_state :=
  cost ← get_cost s neighbor;
  match best_neighbor_cost st with
  | None => Ok (mkScan (Some cost) [neighbor])
  | Some b =>
      if decide (cost < b) then Ok (mkScan (Some cost) [neighbor])
      else if decide (cost = b)
           then Ok (mkScan (Some b) (best_neighbors st ++ [neighbor]))
           else Ok st
  end.

Fixpoint scan (s : Space) (st : scan_state) (l : list placement)
  : result scan_state :=
  match l with
  | [] => Ok st
  | neighbor :: l' => st' ← consider s st neighbor; scan s st' l'
  end.

(** What one pass through the body of the [while] loop does. *)
Inductive step : Type :=
  | Converged (P : placement)
  | Moved (s' : Space) (g' : rng)
  | Failed (e : exn).

(** One iteration: lines 42 to 61.  In
    [best_neighbor_cost >= self.get_cost(self.hospitals)] the call is
    evaluated before the comparison, which raises [TypeError] on [None]. *)
Definition iteration (s : Space) (g : rng) : step :=
  match scan s (mkScan None []) (trials s) with
  | Raise e => Failed e
  | Ok st =>
      match get_cost s (hospitals s) with
      | Raise e => Failed e
      | Ok c =>
          match best_neighbor_cost st with
          | None => Failed TypeError
          | Some b =>
              if decide (b >= c) then Converged (hospitals s)
              else match random_choice g (best_neighbors st) with
                   | (Ok P, g') => Moved (set_hospitals s P) g'
                   | (Raise e, _) => Failed e
                   end
          end
      end
  end.

(** How a call ends: [return v] (falling off the end of the function is
    [return None]), an exception, or the model's fuel running out. *)
Inductive outcome : Type :=
  | Returned (v : option placement)
  | Raised (e : exn)
  | OutOfFuel.

(** A finished call: its outcome, the local [count], the object's state
    and the generator's. *)
Record run : Type := mkRun {
  out : outcome;
  count : Z;
  final : Space;
  gen : rng
}.

(** [while maximum is None or count < maximum]. *)
Definition guard (maximum : option Z) (count : Z) : Prop :=
  match maximum with
  | None => True
  | Some m => count < m
  end.

#[global] Instance guard_dec maximum count : Decision (guard maximum count).
Proof. destruct maximum; simpl; apply _. Defined.

(** The [while] loop; [fuel] bounds the number of iterations. *)
Fixpoint climb (fuel : nat) (maximum : option Z) (count : Z)
  (s : Space) (g : rng) : run :=
  if decide (guard maximum count) then
    match fuel with
    | O => mkRun OutOfFuel count s g
    | S fuel' =>
        match iteration s g with
        | Converged P => mkRun (Returned (Some P)) (count + 1) s g
        | Failed e => mkRun (Raised e) (count + 1) s g
        | Moved s' g' => climb fuel' maximum (count + 1) s' g'
        end
    end
  else mkRun (Returned None) count s g.

(** [hill_climb(maximum, image_prefix=None, log)]: rendering is left out;
    of [log] only the evaluation of [get_cost] is kept. *)
Definition hill_climb (fuel : nat) (maximum : option Z) (log : bool)
  (s : Space) (g : rng) : run :=
  match random_sample g (elements (available_spaces s)) (num_hospitals s) with
  | (Raise e, g') => mkRun (Raised e) 0 s g'
  | (Ok xs, g') =>
      let s1 := set_hospitals s (list_to_set xs) in
      match (if log then get_cost s1 (hospitals s1) else Ok 0) with
      | Raise e => mkRun (Raised e) 0 s1 g'
      | Ok _ => climb fuel maximum 0 s1 g'
      end
  end.

(** ** Random-restart driver *)

(** The loop of [random_restart] with [n] rounds to go; each round calls
    [self.hill_climb()] and [get_cost] on what it returned ([None] is not
    iterable).  The driver has no [count]; the field is left at 0. *)
Fixpoint restarts (fuel : nat) (n : nat) (best_hospitals : option placement)
  (best_cost : option Z) (s : Space) (g : rng) : run :=
  match n with
  | O => mkRun (Returned best_hospitals) 0 s g
  | S n' =>
      let r := hill_climb fuel None false s g in
      match out r with
      | Returned (Some P) =>
          match get_cost (final r) P with
          | Raise e => mkRun (Raised e) 0 (final r) (gen r)
          | Ok cost =>
              match best_cost with
              | Some b =>
                  if decide (cost < b)
                  then restarts fuel n' (Some P) (Some cost) (final r) (gen r)
                  else restarts fuel n' best_hospitals best_cost (final r) (gen r)
              | None => restarts fuel n' (Some P) (Some cost) (final r) (gen r)
              end
          end
      | Returned None => mkRun (Raised TypeError) 0 (final r) (gen r)
      | Raised e => mkRun (Raised e) 0 (final r) (gen r)
      | OutOfFuel => mkRun OutOfFuel 0 (final r) (gen r)
      end
  end.

Definition random_restart (fuel : nat) (maximum : Z) (s : Space) (g : rng) : run :=
  restarts fuel (Z.to_nat maximum) None None s g.

(** ** Vocabulary of the statements *)

(** The distance from a house to the nearest cell of a non-empty placement. *)
Definition nearest (P : placement) (h : cell) : Z :=
  match distance h <$> elements P with
  | [] => 0
  | x :: l => foldl Z.min x l
  end.

(** The value [get_cost] returns on a non-empty placement. *)
Definition total_cost (s : Space) (P : placement) : Z :=
  foldr Z.add 0 (nearest P <$> elements (houses s)).

(** What the two variables of the inner loops hold once the trial
    placements [seen] have been considered: the least cost among them and
    all of them that have it. *)
Definition scanned (s : Space) (seen : list placement) (st : scan_state) : Prop :=
  match best_neighbor_cost st with
  | None => seen = [] ∧ best_neighbors st = []
  | Some b =>
      (∀ n, n ∈ seen → b ≤ total_cost s n)
      ∧ best_neighbors st ≠ []
      ∧ (∀ n, n ∈ best_neighbors st ↔ n ∈ seen ∧ total_cost s n = b)
  end.

(** The exception of an iteration that has no trial placement. *)
Definition stuck_exn (s : Space) : exn :=
  if decide (hospitals s = ∅ ∧ houses s ≠ ∅) then ValueError else TypeError.

(** The placements a run visits: [self.hospitals] at the start of each
    pass through the loop and at the moment the call ends. *)
Fixpoint visited (fuel : nat) (maximum : option Z) (count : Z)
  (s : Space) (g : rng) : list placement :=
  if decide (guard maximum count) then
    match fuel with
    | O => [hospitals s]
    | S fuel' =>
        match iteration s g with
        | Moved s' g' => hospitals s :: visited fuel' maximum (count + 1) s' g'
        | _ => [hospitals s]
        end
    end
  else [hospitals s].

(** Both coordinates inside the grid. *)
Definition in_bounds (s : Space) (rc : cell) : Prop :=
  (0 ≤ rc.1 < height s) ∧ (0 ≤ rc.2 < width s).

(** The placements the successive runs of [random_restart] return, up to
    the first run that does not return one. *)
Fixpoint restart_runs (fuel : nat) (n : nat) (s : Space) (g : rng)
  : list placement :=
  match n with
  | O => []
  | S n' =>
      let r := hill_climb fuel None false s g in
      match out r with
      | Returned (Some P) => P :: restart_runs fuel n' (final r) (gen r)
      | _ => []
      end
  end.

(** ** Example states *)

(** A 1 by 3 grid with a house at (0, 0) and one hospital to place. *)
Definition row3 : Space := add_house (new_space 1 3 1) 0 0.

(** [row3] with its hospital at (0, 1), next to the house. *)
Definition row3_settled : Space := set_hospitals row3 {[ (0, 1) ]}.

(** A 1 by 3 grid without houses and with two hospitals to place. *)
Definition strip : Space := new_space 1 3 2.

(** A single cell, occupied by the only hospital. *)
Definition lone_cell : Space := set_hospitals (new_space 1 1 1) {[ (0, 0) ]}.

(** A single cell with a house on it and no hospital to place. *)
Definition house_only : Space := add_house (new_space 1 1 0) 0 0.

(** [row3] with its hospital at (0, 2), the far end from the house. *)
Definition row3_far : Space := set_hospitals row3 {[ (0, 2) ]}.

(** A single cell and two hospitals to place. *)
Definition crowded : Space := new_space 1 1 2.

(** * Properties *)

(** ** The builtins [min] and [sum] *)

Lemma foldl_min_le (l : list Z) (x : Z) :
  foldl Z.min x l ≤ x ∧ ∀ y, y ∈ l → foldl Z.min x l ≤ y.
Proof.
  revert x. induction l as [|a l IH]; intros x; simpl.
  - split; [lia | intros y Hy; inversion Hy].
  - destruct (IH (Z.min x a)) as [H1 H2]. split; [lia |].
    intros y Hy. apply elem_of_cons in Hy as [-> | Hy]; [lia | auto].
Qed.

Lemma foldl_min_elem (l : list Z) (x : Z) :
  foldl Z.min x l = x ∨ foldl Z.min x l ∈ l.
Proof.
  revert x. induction l as [|a l IH]; intros x; simpl; [by left |].
  destruct (IH (Z.min x a)) as [H | H].
  - rewrite H. destruct (Z.min_spec x a) as [[_ ->] | [_ ->]];
      [by left | right; apply elem_of_cons; by left].
  - right. apply elem_of_cons. by right.
Qed.

(** [min] of a non-empty list is its least element. *)
Lemma py_min_spec (l : list Z) :
  l ≠ [] → ∃ m, py_min l = Ok m ∧ m ∈ l ∧ ∀ y, y ∈ l → m ≤ y.
Proof.
  destruct l as [|x l]; [done | intros _]. exists (foldl Z.min x l).
  split; [done |]. destruct (foldl_min_le l x) as [H1 H2]. split.
  - destruct (foldl_min_elem l x) as [-> | H]; apply elem_of_cons; auto.
  - intros y Hy. apply elem_of_cons in Hy as [-> | Hy]; auto.
Qed.

(** [sum] of items none of which raises. *)
Lemma py_sum_Ok (l : list Z) : py_sum (Ok <$> l) = Ok (foldr Z.add 0 l).
Proof.
  induction l as [|x l IH]; [done |].
  rewrite fmap_cons. simpl. rewrite IH. done.
Qed.

Lemma foldr_add_nonneg (l : list Z) :
  (∀ x, x ∈ l → 0 ≤ x) →
  0 ≤ foldr Z.add 0 l ∧ (foldr Z.add 0 l = 0 ↔ ∀ x, x ∈ l → x = 0).
Proof.
  induction l as [|a l IH]; intros Hl; simpl.
  - split; [lia |]. split; [intros _ x Hx; inversion Hx | done].
  - assert (0 ≤ a) as Ha by (apply Hl; left).
    destruct IH as [IH1 IH2]; [intros x Hx; apply Hl; by right |].
    split; [lia |]. split.
    + intros Hs x Hx. apply elem_of_cons in Hx as [-> | Hx]; [lia |].
      apply IH2; [lia | done].
    + intros Hz. rewrite (Hz a) by left.
      assert (foldr Z.add 0 l = 0) as ->; [| done].
      apply IH2. intros x Hx. apply Hz. by right.
Qed.

(** ** The cost evaluator *)

Lemma distance_nonneg (h c : cell) : 0 ≤ distance h c.
Proof. unfold distance. lia. Qed.

Lemma distance_zero (h c : cell) : distance h c = 0 ↔ h = c.
Proof.
  destruct h as [a b], c as [a' b']. unfold distance. simpl. split.
  - intros H. f_equal; lia.
  - intros [= -> ->]. lia.
Qed.

Lemma elements_nonempty (P : placement) : P ≠ ∅ → elements P ≠ [].
Proof. intros H He. apply H. by apply elements_empty_inv, leibniz_equiv in He. Qed.

Lemma py_min_nearest (P : placement) (h : cell) :
  P ≠ ∅ → py_min (distance h <$> elements P) = Ok (nearest P h).
Proof.
  intros HP. unfold nearest.
  destruct (elements P) as [|c l] eqn:E; [by apply elements_nonempty in HP | done].
Qed.

Lemma nearest_spec (P : placement) (h : cell) :
  P ≠ ∅ →
  (∃ c, c ∈ P ∧ nearest P h = distance h c) ∧ ∀ c, c ∈ P → nearest P h ≤ distance h c.
Proof.
  intros HP.
  destruct (py_min_spec (distance h <$> elements P)) as (m & Hm & Hin & Hle).
  { intros He. apply fmap_nil_inv in He. by apply elements_nonempty in HP. }
  rewrite py_min_nearest in Hm by done. injection Hm as <-. split.
  - apply list_elem_of_fmap in Hin as (c & Hc & Hin). exists c.
    split; [by apply elem_of_elements | done].
  - intros c Hc. apply Hle, list_elem_of_fmap. exists c.
    split; [done | by apply elem_of_elements].
Qed.

Lemma nearest_nonneg (P : placement) (h : cell) : 0 ≤ nearest P h.
Proof.
  destruct (decide (P = ∅)) as [-> | HP].
  - unfold nearest. by rewrite elements_empty.
  - destruct (nearest_spec P h HP) as [(c & _ & ->) _]. apply distance_nonneg.
Qed.

Lemma nearest_zero (P : placement) (h : cell) :
  P ≠ ∅ → nearest P h = 0 ↔ h ∈ P.
Proof.
  intros HP. destruct (nearest_spec P h HP) as [(c & Hc & Hn) Hle]. split.
  - intros Hz. rewrite Hz in Hn. symmetry in Hn.
    apply distance_zero in Hn. by subst.
  - intros Hh. specialize (Hle h Hh).
    pose proof (nearest_nonneg P h).
    assert (distance h h = 0) by by apply distance_zero. lia.
Qed.

(** On a non-empty placement [get_cost] returns, and returns [total_cost]. *)
Lemma get_cost_total (s : Space) (P : placement) :
  P ≠ ∅ → get_cost s P = Ok (total_cost s P).
Proof.
  intros HP. unfold get_cost, total_cost. rewrite <- py_sum_Ok.
  f_equal. rewrite <- list_fmap_compose. apply list_fmap_ext.
  intros _ h _. simpl. by apply py_min_nearest.
Qed.

Lemma total_cost_nonneg (s : Space) (P : placement) : 0 ≤ total_cost s P.
Proof.
  apply foldr_add_nonneg. intros x Hx.
  apply list_elem_of_fmap in Hx as (h & -> & _). apply nearest_nonneg.
Qed.

Lemma total_cost_zero (s : Space) (P : placement) :
  P ≠ ∅ → total_cost s P = 0 ↔ houses s ⊆ P.
Proof.
  intros HP. unfold total_cost.
  destruct (foldr_add_nonneg (nearest P <$> elements (houses s))) as [_ ->].
  { intros x Hx. apply list_elem_of_fmap in Hx as (h & -> & _). apply nearest_nonneg. }
  split.
  - intros H h Hh. apply (nearest_zero P h HP), H, list_elem_of_fmap.
    exists h. split; [done | by apply elem_of_elements].
  - intros H x Hx. apply list_elem_of_fmap in Hx as (h & -> & Hh).
    apply nearest_zero; [done |]. by apply H, elem_of_elements.
Qed.

(** The examples of the cost on a 3 by 3 grid with a house at (0, 0), and
    on a 1 by 5 grid with houses at both ends. *)
Example get_cost_next_to_house :
  get_cost (add_house (new_space 3 3 1) 0 0) {[ (0, 1) ]} = Ok 1
  ∧ get_cost (add_house (new_space 3 3 1) 0 0) {[ (0, 0) ]} = Ok 0.
Proof. vm_compute. done. Qed.

Example get_cost_between_houses :
  get_cost (add_house (add_house (new_space 1 5 1) 0 0) 0 4) {[ (0, 2) ]} = Ok 4.
Proof. vm_compute. done. Qed.

(** C8: on a non-empty placement [get_cost] returns a non-negative integer;
    it is 0 exactly when every house is a cell of the placement, and it is 0
    when there are no houses. *)
Theorem get_cost_nonneg_zero_iff (s : Space) (P : placement) :
  P ≠ ∅ →
  ∃ c, get_cost s P = Ok c
       ∧ 0 ≤ c
       ∧ (c = 0 ↔ ∀ h, h ∈ houses s → h ∈ P)
       ∧ (houses s = ∅ → c = 0).
Proof.
  intros HP. exists (total_cost s P). split; [by apply get_cost_total |].
  split; [apply total_cost_nonneg |]. split.
  - by rewrite total_cost_zero.
  - intros He. apply total_cost_zero; [done |]. rewrite He. set_solver.
Qed.

(** [min] over no hospital raises for the first house, if there is one. *)
Lemma get_cost_empty (s : Space) :
  get_cost s ∅ = if decide (houses s = ∅) then Ok 0 else Raise ValueError.
Proof.
  unfold get_cost. rewrite elements_empty. simpl.
  destruct (decide (houses s = ∅)) as [-> | Hh].
  - by rewrite elements_empty.
  - destruct (elements (houses s)) as [|h l] eqn:E; [| done].
    by apply elements_nonempty in Hh.
Qed.

(** C7, as the code has it: on the empty placement [get_cost] raises
    [ValueError] (from [min]) when there is a house, and returns 0 when
    there is none. *)
Theorem get_cost_empty_placement (s : Space) :
  (houses s ≠ ∅ → get_cost s ∅ = Raise ValueError)
  ∧ (houses s = ∅ → get_cost s ∅ = Ok 0).
Proof.
  rewrite get_cost_empty. split; intros H.
  - by rewrite decide_False.
  - by rewrite decide_True.
Qed.

(** ** The grid state *)

Lemma add_house_unchecked_elem (s : Space) (row col : Z) :
  (row, col) ∈ houses (add_house s row col).
Proof. simpl. apply elem_of_union_l, elem_of_singleton. done. Qed.

(** C9, as the code has it: [add_house] adds the cell whatever its
    coordinates and changes nothing else. *)
Theorem add_house_unchecked (s : Space) (row col : Z) :
  houses (add_house s row col) = {[ (row, col) ]} ∪ houses s
  ∧ (row, col) ∈ houses (add_house s row col)
  ∧ hospitals (add_house s row col) = hospitals s
  ∧ height (add_house s row col) = height s
  ∧ width (add_house s row col) = width s
  ∧ num_hospitals (add_house s row col) = num_hospitals s.
Proof. split_and!; try done. apply add_house_unchecked_elem. Qed.

Lemma elem_of_grid_cells (s : Space) (rc : cell) :
  rc ∈ grid_cells s ↔ (0 ≤ rc.1 < height s) ∧ (0 ≤ rc.2 < width s).
Proof.
  unfold grid_cells, range. rewrite elem_of_list_to_set, list_elem_of_bind.
  split.
  - intros (row & Hc & Hrow). apply list_elem_of_bind in Hc as (col & Hc & Hcol).
    apply list_elem_of_ret in Hc as ->. simpl.
    apply elem_of_seqZ in Hrow. apply elem_of_seqZ in Hcol. lia.
  - intros [H1 H2]. destruct rc as [row col]. simpl in *. exists row.
    split; [| apply elem_of_seqZ; lia].
    apply list_elem_of_bind. exists col.
    split; [by apply list_elem_of_ret | apply elem_of_seqZ; lia].
Qed.

Lemma elem_of_available_spaces (s : Space) (rc : cell) :
  rc ∈ available_spaces s
  ↔ (0 ≤ rc.1 < height s) ∧ (0 ≤ rc.2 < width s)
    ∧ (rc ∉ houses s) ∧ (rc ∉ hospitals s).
Proof.
  unfold available_spaces.
  rewrite !elem_of_difference, elem_of_grid_cells. tauto.
Qed.

(** ** The neighbour generator *)

(** C5: [get_neighbors] returns exactly those of the four adjacent cells
    that are in bounds, not a house and not a hospital of the current
    placement; there are at most four, none listed twice. *)
Theorem get_neighbors_spec (s : Space) (row col : Z) :
  (∀ rc, rc ∈ get_neighbors s row col
         ↔ (rc = (row - 1, col) ∨ rc = (row + 1, col)
            ∨ rc = (row, col - 1) ∨ rc = (row, col + 1))
           ∧ (0 ≤ rc.1 < height s) ∧ (0 ≤ rc.2 < width s)
           ∧ (rc ∉ houses s) ∧ (rc ∉ hospitals s))
  ∧ (length (get_neighbors s row col) ≤ 4)%nat
  ∧ NoDup (get_neighbors s row col).
Proof.
  unfold get_neighbors. split; [| split].
  - intros rc. rewrite list_elem_of_filter. unfold valid, candidates.
    rewrite !elem_of_cons, elem_of_nil. tauto.
  - etrans; [apply length_filter | done].
  - apply NoDup_filter. unfold candidates.
    rewrite !NoDup_cons, !not_elem_of_cons.
    repeat split; try (intros [=]; lia); try apply not_elem_of_nil.
    apply NoDup_nil_2.
Qed.

Lemma get_neighbors_valid (s : Space) (row col : Z) (rc : cell) :
  rc ∈ get_neighbors s row col → valid s rc.
Proof. unfold get_neighbors. rewrite list_elem_of_filter. tauto. Qed.

(** ** Randomness *)

Lemma random_choice_elem {A : Type} (g : rng) (l : list A) :
  l ≠ [] → ∃ x, random_choice g l = (Ok x, tail g) ∧ x ∈ l.
Proof.
  intros Hl. unfold random_choice, draw.
  destruct (lookup_lt_is_Some_2 l (hd 0%nat g mod length l)) as [x Hx].
  { apply Nat.mod_upper_bound. by destruct l. }
  exists x. rewrite Hx. split; [done | by eapply list_elem_of_lookup_2].
Qed.

(** ** One iteration of the optimizer *)

Lemma elem_of_trials (s : Space) (n : placement) :
  n ∈ trials s
  ↔ ∃ hospital replacement,
      hospital ∈ hospitals s
      ∧ replacement ∈ get_neighbors s hospital.1 hospital.2
      ∧ n = neighbor_of (hospitals s) hospital replacement.
Proof.
  unfold trials. rewrite list_elem_of_bind. split.
  - intros (hospital & Hn & Hh). apply list_elem_of_bind in Hn as (r & Hn & Hr).
    apply list_elem_of_ret in Hn. exists hospital, r.
    by rewrite <- elem_of_elements.
  - intros (hospital & r & Hh & Hr & ->). exists hospital.
    split; [| by apply elem_of_elements].
    apply list_elem_of_bind. exists r. split; [by apply list_elem_of_ret | done].
Qed.

Lemma neighbor_of_nonempty (P : placement) (hospital replacement : cell) :
  neighbor_of P hospital replacement ≠ ∅.
Proof. unfold neighbor_of. set_solver. Qed.

Lemma trial_nonempty (s : Space) (n : placement) : n ∈ trials s → n ≠ ∅.
Proof.
  intros (h & r & _ & _ & ->)%elem_of_trials. apply neighbor_of_nonempty.
Qed.

Lemma trials_nil (s : Space) :
  trials s = [] ↔ ∀ h, h ∈ hospitals s → get_neighbors s h.1 h.2 = [].
Proof.
  split.
  - intros He h Hh. destruct (get_neighbors s h.1 h.2) as [|r l] eqn:E; [done |].
    assert (neighbor_of (hospitals s) h r ∈ trials s) as Hin.
    { apply elem_of_trials. exists h, r. rewrite E. split_and!; [done | left | done]. }
    rewrite He in Hin. inversion Hin.
  - intros H. destruct (trials s) as [|n l] eqn:E; [done |].
    assert (n ∈ trials s) as Hin by (rewrite E; left).
    apply elem_of_trials in Hin as (h & r & Hh & Hr & _).
    rewrite (H h Hh) in Hr. inversion Hr.
Qed.

Lemma consider_scanned (s : Space) (seen : list placement) (st : scan_state)
  (n : placement) :
  scanned s seen st → n ≠ ∅ →
  ∃ st', consider s st n = Ok st' ∧ scanned s (seen ++ [n]) st'.
Proof.
  intros Hst Hn. unfold consider. rewrite get_cost_total by done. simpl.
  unfold scanned in *. destruct (best_neighbor_cost st) as [b|] eqn:Eb.
  - destruct Hst as (Hle & Hne & Hiff).
    destruct (decide (total_cost s n < b)) as [Hlt | Hge].
    { eexists. split; [done |]. simpl. split_and!; [| done |].
      - intros m [Hm | ->%list_elem_of_singleton]%elem_of_app; [| lia].
        specialize (Hle m Hm). lia.
      - intros m. rewrite list_elem_of_singleton, elem_of_app, list_elem_of_singleton.
        split; [intros ->; auto |].
        intros [[Hm | ->] Hc]; [| done]. specialize (Hle m Hm). lia. }
    destruct (decide (total_cost s n = b)) as [Heq | Hneq].
    { eexists. split; [done |]. simpl. split_and!.
      - intros m [Hm | ->%list_elem_of_singleton]%elem_of_app; [auto | lia].
      - by destruct (best_neighbors st).
      - intros m. rewrite !elem_of_app, !list_elem_of_singleton, Hiff.
        split; [intros [[? ?] | ->]; auto | intros [[? | ->] ?]; auto]. }
    exists st. split; [done |]. rewrite Eb. split_and!; [| done |].
    + intros m [Hm | ->%list_elem_of_singleton]%elem_of_app; [auto | lia].
    + intros m. rewrite Hiff, elem_of_app, list_elem_of_singleton.
      split; [intros [? ?]; auto | intros [[? | ->] ?]; [auto | lia]].
  - destruct Hst as [-> _]. eexists. split; [done |]. simpl. split_and!; [| done |].
    + intros m ->%list_elem_of_singleton. lia.
    + intros m. rewrite list_elem_of_singleton. split; [intros ->; auto | tauto].
Qed.

Lemma scan_scanned (s : Space) (l seen : list placement) (st : scan_state) :
  scanned s seen st → (∀ n, n ∈ l → n ≠ ∅) →
  ∃ st', scan s st l = Ok st' ∧ scanned s (seen ++ l) st'.
Proof.
  revert seen st. induction l as [|n l IH]; intros seen st Hst Hl; simpl.
  - exists st. by rewrite app_nil_r.
  - destruct (consider_scanned s seen st n Hst) as (st1 & -> & Hst1).
    { apply Hl. left. }
    simpl. destruct (IH (seen ++ [n]) st1 Hst1) as (st' & Hs & Hst').
    { intros m Hm. apply Hl. by right. }
    exists st'. split; [done |]. by rewrite <- app_assoc in Hst'.
Qed.

(** The inner loops never raise, and leave the least trial cost and the
    trial placements that achieve it. *)
Lemma scan_trials (s : Space) :
  ∃ st, scan s (mkScan None []) (trials s) = Ok st ∧ scanned s (trials s) st.
Proof.
  destruct (scan_scanned s (trials s) [] (mkScan None [])) as (st & H1 & H2).
  - done.
  - apply trial_nonempty.
  - by exists st.
Qed.

(** The three ways an iteration ends. *)
Lemma iteration_spec (s : Space) (g : rng) :
  match iteration s g with
  | Converged P =>
      P = hospitals s ∧ trials s ≠ []
      ∧ ∀ n, n ∈ trials s → total_cost s (hospitals s) ≤ total_cost s n
  | Moved s' g' =>
      ∃ P, s' = set_hospitals s P ∧ P ∈ trials s ∧ hospitals s ≠ ∅
           ∧ total_cost s P < total_cost s (hospitals s)
           ∧ ∀ n, n ∈ trials s → total_cost s P ≤ total_cost s n
  | Failed e => trials s = [] ∧ e = stuck_exn s
  end.
Proof.
  destruct (scan_trials s) as (st & Hscan & Hst).
  unfold iteration. rewrite Hscan. unfold scanned in Hst.
  destruct (best_neighbor_cost st) as [b|] eqn:Eb.
  - destruct Hst as (Hle & Hne & Hiff).
    assert (∃ n, n ∈ best_neighbors st) as [n0 Hn0].
    { destruct (best_neighbors st) as [|n0 ?]; [done |]. exists n0. left. }
    assert (trials s ≠ []) as Htr.
    { intros He. apply Hiff in Hn0 as [Hn0 _]. rewrite He in Hn0. inversion Hn0. }
    assert (hospitals s ≠ ∅) as HP.
    { apply Hiff in Hn0 as [(h & r & Hh & _)%elem_of_trials _].
      intros He. rewrite He in Hh. by apply not_elem_of_empty in Hh. }
    rewrite get_cost_total by done.
    destruct (decide (b >= total_cost s (hospitals s))) as [Hge | Hlt].
    + split_and!; [done | done |]. intros n Hn. specialize (Hle n Hn). lia.
    + destruct (random_choice_elem g (best_neighbors st) Hne) as (P & -> & HPin).
      apply Hiff in HPin as [HPin Hc]. exists P.
      split_and!; [done | done | done | lia |].
      intros n Hn. specialize (Hle n Hn). lia.
  - destruct Hst as [Htr _]. unfold stuck_exn.
    destruct (decide (hospitals s = ∅)) as [He | HP].
    + rewrite He, get_cost_empty.
      destruct (decide (houses s = ∅)) as [Hh | Hh].
      * rewrite decide_False by tauto. done.
      * rewrite decide_True by tauto. done.
    + rewrite get_cost_total by done. rewrite decide_False by tauto. done.
Qed.

(** ** The loop *)

Lemma visited_head (fuel : nat) (maximum : option Z) (cnt : Z) (s : Space) (g : rng) :
  head (visited fuel maximum cnt s g) = Some (hospitals s).
Proof.
  destruct fuel; simpl; case_decide; try done. by destruct (iteration s g).
Qed.

(** The last placement visited is the one the object is left with. *)
Lemma visited_last (fuel : nat) (maximum : option Z) (cnt : Z) (s : Space) (g : rng) :
  last (visited fuel maximum cnt s g)
  = Some (hospitals (final (climb fuel maximum cnt s g))).
Proof.
  revert cnt s g. induction fuel as [|fuel IH]; intros cnt s g; simpl.
  - by case_decide.
  - case_decide; [| done]. destruct (iteration s g) as [P | s' g' | e]; try done.
    rewrite last_cons, IH. done.
Qed.

(** The houses and the dimensions never change during a run. *)
Lemma climb_houses (fuel : nat) (maximum : option Z) (cnt : Z) (s : Space) (g : rng) :
  houses (final (climb fuel maximum cnt s g)) = houses s.
Proof.
  revert cnt s g. induction fuel as [|fuel IH]; intros cnt s g; simpl.
  - by case_decide.
  - case_decide; [| done]. pose proof (iteration_spec s g) as Hit.
    destruct (iteration s g) as [P | s' g' | e]; try done.
    destruct Hit as (P & -> & _). by rewrite IH.
Qed.

Lemma get_cost_set_hospitals (s : Space) (P Q : placement) :
  get_cost (set_hospitals s P) Q = get_cost s Q.
Proof. done. Qed.

Lemma total_cost_set_hospitals (s : Space) (P Q : placement) :
  total_cost (set_hospitals s P) Q = total_cost s Q.
Proof. done. Qed.

(** C1: when there are trial placements and none costs strictly less than
    the current placement, the pass through the loop is the last one: the
    call returns the current placement and leaves the object as it was. *)
Theorem hill_climb_converges (fuel : nat) (maximum : option Z) (cnt : Z)
  (s : Space) (g : rng) (c : Z) :
  guard maximum cnt →
  trials s ≠ [] →
  get_cost s (hospitals s) = Ok c →
  (∀ n, n ∈ trials s → ∃ cn, get_cost s n = Ok cn ∧ c ≤ cn) →
  iteration s g = Converged (hospitals s)
  ∧ climb (S fuel) maximum cnt s g
    = mkRun (Returned (Some (hospitals s))) (cnt + 1) s g.
Proof.
  intros Hg Htr Hc Hmin.
  assert (iteration s g = Converged (hospitals s)) as Hit.
  { pose proof (iteration_spec s g) as Hsp.
    destruct (iteration s g) as [P | s' g' | e].
    - by destruct Hsp as [-> _].
    - destruct Hsp as (P & _ & HP & Hne & Hlt & _).
      destruct (Hmin P HP) as (cn & Hcn & Hle).
      rewrite get_cost_total in Hcn by by eapply trial_nonempty.
      rewrite get_cost_total in Hc by done.
      injection Hcn as <-. injection Hc as <-. lia.
    - by destruct Hsp as [? _]. }
  split; [done |]. simpl. rewrite decide_True by done. by rewrite Hit.
Qed.

(** C2: along the placements a run visits the cost strictly decreases from
    each one to the next, so a step is only taken on a strict improvement;
    the placement returned is the last one visited, the converged pass
    leaving it unchanged. *)
Theorem hill_climb_cost_decreases (fuel : nat) (maximum : option Z) (cnt : Z)
  (s : Space) (g : rng) :
  (∀ i P P',
      visited fuel maximum cnt s g !! i = Some P →
      visited fuel maximum cnt s g !! S i = Some P' →
      ∃ c c', get_cost s P = Ok c ∧ get_cost s P' = Ok c' ∧ c' < c)
  ∧ (∀ P, out (climb fuel maximum cnt s g) = Returned (Some P) →
          last (visited fuel maximum cnt s g) = Some P
          ∧ hospitals (final (climb fuel maximum cnt s g)) = P).
Proof.
  split.
  - revert cnt s g. induction fuel as [|fuel IH]; intros cnt s g i P P'; simpl.
    { case_decide; intros _ Hi; destruct i; done. }
    case_decide; [| intros _ Hi; destruct i; done].
    pose proof (iteration_spec s g) as Hsp.
    destruct (iteration s g) as [Q | s' g' | e];
      [intros _ H'; destruct i; done | | intros _ H'; destruct i; done].
    destruct Hsp as (Q & -> & HQ & Hne & Hlt & _).
    destruct i as [|i]; simpl.
    + intros [= <-] H1.
      pose proof (visited_head fuel maximum (cnt + 1) (set_hospitals s Q) g') as Hh.
      rewrite head_lookup, H1 in Hh. injection Hh as ->. simpl.
      exists (total_cost s (hospitals s)), (total_cost s Q).
      rewrite !get_cost_total by (done || by eapply trial_nonempty). done.
    + intros H1 H2. apply (IH _ _ _ _ _ _ H1 H2).
  - intros P HP. rewrite visited_last.
    enough (hospitals (final (climb fuel maximum cnt s g)) = P) as -> by done.
    revert cnt s g HP. induction fuel as [|fuel IH]; intros cnt s g; simpl.
    { by case_decide. }
    case_decide; [| done]. pose proof (iteration_spec s g) as Hsp.
    destruct (iteration s g) as [Q | s' g' | e]; simpl; try done.
    + destruct Hsp as [-> _]. by intros [= ->].
    + apply IH.
Qed.

(** ** Sampling *)

Lemma delete_NoDup_notin {A : Type} (l : list A) (i : nat) (x : A) :
  NoDup l → l !! i = Some x → (x ∉ delete i l) ∧ NoDup (delete i l).
Proof.
  intros Hnd Hx. rewrite delete_take_drop.
  rewrite <- (take_drop_middle l i x Hx) in Hnd.
  apply NoDup_app in Hnd as (H1 & H2 & H3). apply NoDup_cons in H3 as [H3 H4].
  split.
  - intros [Hin | Hin]%elem_of_app; [| done]. apply (H2 x Hin). left.
  - apply NoDup_app. split_and!; [done | | done].
    intros y Hy Hy'. apply (H2 y Hy). by right.
Qed.

(** [pick] draws [k] elements of the pool, at distinct positions. *)
Lemma pick_spec {A : Type} (k : nat) (g : rng) (pool : list A) :
  (k ≤ length pool)%nat →
  length (pick g pool k).1 = k
  ∧ (∀ x, x ∈ (pick g pool k).1 → x ∈ pool)
  ∧ (NoDup pool → NoDup (pick g pool k).1).
Proof.
  revert g pool. induction k as [|k IH]; intros g pool Hk; simpl.
  { split_and!; [done | intros x Hx; inversion Hx | intros; apply NoDup_nil_2]. }
  destruct (lookup_lt_is_Some_2 pool (hd 0 g mod length pool)%nat) as [x Hx].
  { apply Nat.mod_upper_bound. lia. }
  rewrite Hx.
  destruct (IH (tail g) (delete (hd 0 g mod length pool)%nat pool)) as (H1 & H2 & H3).
  { rewrite length_delete by eauto. lia. }
  destruct (pick (tail g) (delete (hd 0 g mod length pool)%nat pool) k)
    as [xs g''] eqn:E.
  simpl in *. split_and!.
  - by rewrite H1.
  - intros y [-> | Hy]%elem_of_cons; [by eapply list_elem_of_lookup_2 |].
    eapply list_elem_of_delete_inv. by apply H2.
  - intros Hnd. destruct (delete_NoDup_notin _ _ _ Hnd Hx) as [Hni Hnd'].
    apply NoDup_cons. split; [| by apply H3].
    intros Hin. by apply Hni, H2.
Qed.

(** [random.sample] with [0 <= k <= len(population)] returns [k] elements of
    the population, no position twice; otherwise it raises [ValueError]. *)
Lemma random_sample_spec {A : Type} (g : rng) (population : list A) (k : Z) :
  match (random_sample g population k).1 with
  | Ok xs =>
      0 ≤ k ≤ Z.of_nat (length population)
      ∧ Z.of_nat (length xs) = k
      ∧ (∀ x, x ∈ xs → x ∈ population)
      ∧ (NoDup population → NoDup xs)
  | Raise e => e = ValueError ∧ ¬ (0 ≤ k ≤ Z.of_nat (length population))
  end.
Proof.
  unfold random_sample. case_decide as Hk; [| done].
  destruct (pick_spec (Z.to_nat k) g population) as (H1 & H2 & H3); [lia |].
  destruct (pick g population (Z.to_nat k)) as [xs g']. simpl in *.
  split_and!; [lia | lia | lia | done | done].
Qed.

(** ** Termination *)

Lemma foldr_add_le (l : list Z) (d : Z) :
  (∀ x, x ∈ l → x ≤ d) → foldr Z.add 0 l ≤ Z.of_nat (length l) * d.
Proof.
  induction l as [|a l IH]; intros Hl; simpl; [lia |].
  assert (a ≤ d) by (apply Hl; left).
  assert (foldr Z.add 0 l ≤ Z.of_nat (length l) * d).
  { apply IH. intros x Hx. apply Hl. by right. }
  lia.
Qed.

(** With houses and hospitals inside the grid no house is farther than
    [height + width - 2] from a hospital. *)
Lemma total_cost_le (s : Space) (P : placement) :
  P ≠ ∅ →
  (∀ h, h ∈ houses s → in_bounds s h) →
  (∀ c, c ∈ P → in_bounds s c) →
  total_cost s P ≤ Z.of_nat (size (houses s)) * (height s + width s - 2).
Proof.
  intros HP Hh Hc. unfold total_cost.
  etrans; [apply (foldr_add_le _ (height s + width s - 2)) |].
  - intros x (h & -> & Hin%elem_of_elements)%list_elem_of_fmap.
    destruct (nearest_spec P h HP) as [(c & HcP & ->) _].
    destruct (Hh h Hin) as [? ?], (Hc c HcP) as [? ?]. unfold distance. lia.
  - by rewrite length_fmap.
Qed.

(** The loop started on a non-empty placement ends within [cost + 1]
    passes: it returns the placement it converged to, or raises
    [TypeError] in a pass without trial placements. *)
Lemma climb_terminates (fuel : nat) (cnt : Z) (s : Space) (g : rng) :
  hospitals s ≠ ∅ →
  total_cost s (hospitals s) < Z.of_nat fuel →
  ((∃ P, out (climb fuel None cnt s g) = Returned (Some P))
   ∨ out (climb fuel None cnt s g) = Raised TypeError)
  ∧ cnt + 1 ≤ count (climb fuel None cnt s g)
           ≤ cnt + total_cost s (hospitals s) + 1.
Proof.
  revert cnt s g. induction fuel as [|fuel IH]; intros cnt s g HP Hc.
  { pose proof (total_cost_nonneg s (hospitals s)). lia. }
  pose proof (total_cost_nonneg s (hospitals s)) as Hnn.
  simpl. pose proof (iteration_spec s g) as Hsp.
  destruct (iteration s g) as [Q | s' g' | e]; simpl.
  - split; [left; eauto | lia].
  - destruct Hsp as (Q & -> & HQ & _ & Hlt & _).
    destruct (IH (cnt + 1) (set_hospitals s Q) g') as [Ho Hcnt].
    { simpl. by eapply trial_nonempty. }
    { simpl. rewrite total_cost_set_hospitals. lia. }
    split; [done |]. simpl in Hcnt. rewrite total_cost_set_hospitals in Hcnt. lia.
  - destruct Hsp as [_ ->]. unfold stuck_exn.
    rewrite decide_False by tauto. split; [by right | lia].
Qed.


(** ** The iteration cap and a pass without trial placements *)

(** Once [count] has reached [maximum] the loop is left and the function
    ends without a [return]: the value is [None], the placement stays in
    [self.hospitals]. *)
Lemma climb_capped (fuel : nat) (m cnt : Z) (s : Space) (g : rng) :
  m ≤ cnt → climb fuel (Some m) cnt s g = mkRun (Returned None) cnt s g.
Proof.
  intros Hm. destruct fuel; simpl; rewrite decide_False by lia; done.
Qed.

(** C10, as the code has it: in a pass where no hospital of the current
    placement has a valid neighbour the call raises instead of returning:
    [TypeError] from comparing [None] with the cost, except that with an
    empty placement and at least one house [get_cost] raises [ValueError]
    before the comparison is made. *)
Theorem hill_climb_stuck (fuel : nat) (maximum : option Z) (cnt : Z)
  (s : Space) (g : rng) :
  guard maximum cnt →
  (∀ h, h ∈ hospitals s → get_neighbors s h.1 h.2 = []) →
  climb (S fuel) maximum cnt s g
  = mkRun (Raised (if decide (hospitals s = ∅ ∧ houses s ≠ ∅)
                   then ValueError else TypeError))
          (cnt + 1) s g.
Proof.
  intros Hg Hn%trials_nil. simpl. rewrite decide_True by done.
  pose proof (iteration_spec s g) as Hsp.
  destruct (iteration s g) as [Q | s' g' | e].
  - by destruct Hsp as (_ & ? & _).
  - destruct Hsp as (Q & _ & HQ & _). rewrite Hn in HQ. inversion HQ.
  - by destruct Hsp as [_ ->].
Qed.

(** C3: with [maximum=1] on [row3], the sample being (0, 2), the one pass
    allowed moves the hospital to (0, 1) and the call then ends without a
    [return]: its value is [None], while the uncapped call from the same
    start returns the placement. *)
Theorem hill_climb_cap_returns_None :
  out (hill_climb 5 (Some 1) false row3 []) = Returned None
  ∧ count (hill_climb 5 (Some 1) false row3 []) = 1
  ∧ hospitals (final (hill_climb 5 (Some 1) false row3 [])) = {[ (0, 1) ]}
  ∧ out (hill_climb 5 None false row3 []) = Returned (Some {[ (0, 1) ]}).
Proof. vm_compute. done. Qed.

(** ** Restarts *)

Lemma pick_two {A : Type} (g : rng) (a b c : A) :
  pick g [a; b; c] 2
  ∈ (λ xs, (xs, tail (tail g)))
      <$> [[a; b]; [a; c]; [b; a]; [b; c]; [c; a]; [c; b]].
Proof.
  cbn [pick draw length].
  pose proof (Nat.mod_upper_bound (hd 0 g)%nat 3) as Hi.
  destruct (hd 0 g mod 3)%nat as [|[|[|i]]]; [| | | lia];
    cbn [lookup list_lookup delete list_delete length];
    pose proof (Nat.mod_upper_bound (hd 0 (tail g))%nat 2) as Hj;
    destruct (hd 0 (tail g) mod 2)%nat as [|[|j]]; try lia; cbn;
    rewrite !elem_of_cons; tauto.
Qed.

(** The first run on [strip] converges in its first pass, whatever is
    drawn, and leaves its two hospitals in the object. *)
Lemma strip_first_run (fuel : nat) (g : rng) :
  ∃ P, P ∈ [ {[ (0, 0); (0, 1) ]}; {[ (0, 0); (0, 2) ]}; {[ (0, 1); (0, 2) ]} ]
       ∧ hill_climb (S fuel) None false strip g
         = mkRun (Returned (Some P)) 1 (set_hospitals strip P) (tail (tail g)).
Proof.
  assert (elements (available_spaces strip) = [(0, 2); (0, 1); (0, 0)]) as Hel.
  { vm_compute. reflexivity. }
  assert (hill_climb (S fuel) None false strip g
          = climb (S fuel) None 0
              (set_hospitals strip
                 (list_to_set (pick g [(0, 2); (0, 1); (0, 0)] 2).1))
              (pick g [(0, 2); (0, 1); (0, 0)] 2).2) as ->.
  { unfold hill_climb, random_sample. rewrite Hel.
    rewrite decide_True by (vm_compute; split; discriminate).
    change (Z.to_nat (num_hospitals strip)) with 2%nat.
    by destruct (pick g [(0, 2); (0, 1); (0, 0)] 2). }
  pose proof (pick_two g (0, 2) (0, 1) (0, 0)) as Hp.
  destruct (pick g [(0, 2); (0, 1); (0, 0)] 2) as [xs g'].
  cbn in Hp. rewrite !elem_of_cons, elem_of_nil in Hp.
  destruct Hp as [Hp|[Hp|[Hp|[Hp|[Hp|[Hp|[]]]]]]]; injection Hp as -> ->.
  - exists {[ (0, 1); (0, 2) ]}.
    split; [rewrite !elem_of_cons; tauto | vm_compute; reflexivity].
  - exists {[ (0, 0); (0, 2) ]}.
    split; [rewrite !elem_of_cons; tauto | vm_compute; reflexivity].
  - exists {[ (0, 1); (0, 2) ]}.
    split; [rewrite !elem_of_cons; tauto | vm_compute; reflexivity].
  - exists {[ (0, 0); (0, 1) ]}.
    split; [rewrite !elem_of_cons; tauto | vm_compute; reflexivity].
  - exists {[ (0, 0); (0, 2) ]}.
    split; [rewrite !elem_of_cons; tauto | vm_compute; reflexivity].
  - exists {[ (0, 0); (0, 1) ]}.
    split; [rewrite !elem_of_cons; tauto | vm_compute; reflexivity].
Qed.

(** A run that starts with those hospitals still in the object has a
    single cell to sample two from. *)
Lemma strip_second_run (fuel : nat) (g : rng) (P : placement) :
  P ∈ [ {[ (0, 0); (0, 1) ]}; {[ (0, 0); (0, 2) ]}; {[ (0, 1); (0, 2) ]} ] →
  size (available_spaces (set_hospitals strip P)) = 1%nat
  ∧ get_cost (set_hospitals strip P) P = Ok 0
  ∧ out (hill_climb fuel None false (set_hospitals strip P) g) = Raised ValueError.
Proof.
  rewrite !elem_of_cons, elem_of_nil.
  intros [-> | [-> | [-> | []]]]; vm_compute; done.
Qed.

(** The sampling domain of a run leaves out whatever placement the object
    holds when the run starts. *)
Lemma available_spaces_excludes_hospitals (s : Space) (c : cell) :
  c ∈ hospitals s → c ∉ available_spaces s.
Proof. intros Hc Ha. apply elem_of_available_spaces in Ha. tauto. Qed.

(** C6: on a 1 by 3 grid without houses and with two hospitals, every
    [random_restart(2)] raises [ValueError]: the second run samples from
    the cells the first run left free, and that is one cell. *)
Theorem restart_sample_excludes_previous (fuel : nat) (g : rng) :
  out (random_restart (S fuel) 2 strip g) = Raised ValueError.
Proof.
  unfold random_restart. change (Z.to_nat 2) with 2%nat. cbn [restarts].
  destruct (strip_first_run fuel g) as (P & HP & ->). cbn [out final gen].
  destruct (strip_second_run (S fuel) (tail (tail g)) P HP) as (_ & -> & H2).
  destruct (hill_climb (S fuel) None false (set_hospitals strip P) (tail (tail g)))
    as [o c f g2].
  simpl in *. by rewrite H2.
Qed.

(** ** The claims that fail, at concrete inputs *)

(** C7 fails: without houses the cost of the empty placement is 0, not an
    error. *)
Lemma get_cost_empty_counterexample :
  get_cost (new_space 3 3 1) ∅ = Ok 0
  ∧ ¬ ∃ e, get_cost (new_space 3 3 1) ∅ = Raise e.
Proof. split; [done | intros [e He]; discriminate He]. Qed.

(** C9 fails: [add_house(5, 7)] on a 1 by 1 grid puts the cell among the
    houses. *)
Lemma add_house_counterexample :
  ¬ in_bounds (new_space 1 1 1) (5, 7)
  ∧ (5, 7) ∈ houses (add_house (new_space 1 1 1) 5 7).
Proof.
  split; [unfold in_bounds; simpl; lia |].
  apply add_house_unchecked_elem.
Qed.

(** C10 fails: with a house and no hospital to place no hospital has a
    neighbour, and the call raises [ValueError], not [TypeError]. *)
Lemma hill_climb_stuck_counterexample :
  (∀ h, h ∈ hospitals house_only → get_neighbors house_only h.1 h.2 = [])
  ∧ climb 1 None 0 house_only [] = mkRun (Raised ValueError) 1 house_only []
  ∧ out (hill_climb 1 None false house_only []) = Raised ValueError
  ∧ out (hill_climb 1 None false house_only []) ≠ Raised TypeError.
Proof.
  split_and!; try (vm_compute; done).
Qed.

(** ** The theorems at concrete inputs *)

(** C8 on [row3] with the hospital at (0, 1). *)
Lemma get_cost_nonneg_zero_iff_witness :
  ({[ (0, 1) ]} : placement) ≠ ∅
  ∧ ∃ c, get_cost row3 {[ (0, 1) ]} = Ok c
         ∧ 0 ≤ c
         ∧ (c = 0 ↔ ∀ h, h ∈ houses row3 → h ∈ ({[ (0, 1) ]} : placement))
         ∧ (houses row3 = ∅ → c = 0).
Proof.
  assert (({[ (0, 1) ]} : placement) ≠ ∅) as H by (vm_compute; discriminate).
  split; [exact H | exact (get_cost_nonneg_zero_iff row3 {[ (0, 1) ]} H)].
Defined.

(** C1 on [row3_settled]: the only trial placement is the hospital at
    (0, 2), of cost 2, and the current cost is 1. *)
Lemma hill_climb_converges_witness :
  guard None 0
  ∧ trials row3_settled ≠ []
  ∧ get_cost row3_settled (hospitals row3_settled) = Ok 1
  ∧ (∀ n, n ∈ trials row3_settled → ∃ cn, get_cost row3_settled n = Ok cn ∧ 1 ≤ cn)
  ∧ iteration row3_settled [] = Converged (hospitals row3_settled)
  ∧ climb 1 None 0 row3_settled []
    = mkRun (Returned (Some (hospitals row3_settled))) (0 + 1) row3_settled [].
Proof.
  assert (trials row3_settled = [ {[ (0, 2) ]} ]) as Htr
    by (vm_compute; reflexivity).
  assert (guard None 0) as H1 by exact I.
  assert (trials row3_settled ≠ []) as H2 by (rewrite Htr; discriminate).
  assert (get_cost row3_settled (hospitals row3_settled) = Ok 1) as H3
    by (vm_compute; reflexivity).
  assert (∀ n, n ∈ trials row3_settled
               → ∃ cn, get_cost row3_settled n = Ok cn ∧ 1 ≤ cn) as H4.
  { intros n Hn. rewrite Htr in Hn. apply list_elem_of_singleton in Hn as ->.
    exists 2. split; [vm_compute; reflexivity | lia]. }
  split; [exact H1 |]. split; [exact H2 |]. split; [exact H3 |].
  split; [exact H4 |].
  exact (hill_climb_converges 0 None 0 row3_settled [] 1 H1 H2 H3 H4).
Defined.


(** C10 on [lone_cell]: the hospital has no neighbour and the call raises
    [TypeError]. *)
Lemma hill_climb_stuck_witness :
  guard None 0
  ∧ (∀ h, h ∈ hospitals lone_cell → get_neighbors lone_cell h.1 h.2 = [])
  ∧ climb 1 None 0 lone_cell []
    = mkRun (Raised (if decide (hospitals lone_cell = ∅ ∧ houses lone_cell ≠ ∅)
                     then ValueError else TypeError))
            (0 + 1) lone_cell []
  ∧ climb 1 None 0 lone_cell [] = mkRun (Raised TypeError) 1 lone_cell [].
Proof.
  assert (guard None 0) as H1 by exact I.
  assert (∀ h, h ∈ hospitals lone_cell → get_neighbors lone_cell h.1 h.2 = [])
    as H2.
  { intros h Hh. unfold lone_cell in Hh. simpl in Hh.
    apply elem_of_singleton in Hh as ->. vm_compute. reflexivity. }
  split; [exact H1 |]. split; [exact H2 |]. split.
  - exact (hill_climb_stuck 0 None 0 lone_cell [] H1 H2).
  - vm_compute. reflexivity.
Defined.

(** C7 on [house_only] and on a grid without houses. *)
Lemma get_cost_empty_placement_witness :
  houses house_only ≠ ∅
  ∧ get_cost house_only ∅ = Raise ValueError
  ∧ houses (new_space 3 3 1) = ∅
  ∧ get_cost (new_space 3 3 1) ∅ = Ok 0.
Proof.
  assert (houses house_only ≠ ∅) as H1 by (vm_compute; discriminate).
  assert (houses (new_space 3 3 1) = ∅) as H2 by reflexivity.
  split; [exact H1 |].
  split; [exact (proj1 (get_cost_empty_placement house_only) H1) |].
  split; [exact H2 |].
  exact (proj2 (get_cost_empty_placement (new_space 3 3 1)) H2).
Defined.

(** C2 on [row3] with the hospital at (0, 2): the run visits (0, 2) and
    (0, 1), of costs 2 and 1, and returns the latter. *)
Lemma hill_climb_cost_decreases_witness :
  visited 5 None 0 (set_hospitals row3 {[ (0, 2) ]}) [] !! 0%nat
  = Some {[ (0, 2) ]}
  ∧ visited 5 None 0 (set_hospitals row3 {[ (0, 2) ]}) [] !! 1%nat
    = Some {[ (0, 1) ]}
  ∧ out (climb 5 None 0 (set_hospitals row3 {[ (0, 2) ]}) [])
    = Returned (Some {[ (0, 1) ]})
  ∧ (∃ c c', get_cost (set_hospitals row3 {[ (0, 2) ]}) {[ (0, 2) ]} = Ok c
             ∧ get_cost (set_hospitals row3 {[ (0, 2) ]}) {[ (0, 1) ]} = Ok c'
             ∧ c' < c)
  ∧ last (visited 5 None 0 (set_hospitals row3 {[ (0, 2) ]}) [])
    = Some {[ (0, 1) ]}
  ∧ hospitals (final (climb 5 None 0 (set_hospitals row3 {[ (0, 2) ]}) []))
    = {[ (0, 1) ]}.
Proof.
  assert (visited 5 None 0 (set_hospitals row3 {[ (0, 2) ]}) [] !! 0%nat
          = Some {[ (0, 2) ]}) as H1 by (vm_compute; reflexivity).
  assert (visited 5 None 0 (set_hospitals row3 {[ (0, 2) ]}) [] !! 1%nat
          = Some {[ (0, 1) ]}) as H2 by (vm_compute; reflexivity).
  assert (out (climb 5 None 0 (set_hospitals row3 {[ (0, 2) ]}) [])
          = Returned (Some {[ (0, 1) ]})) as H3 by (vm_compute; reflexivity).
  split; [exact H1 |]. split; [exact H2 |]. split; [exact H3 |].
  split.
  - exact (proj1 (hill_climb_cost_decreases 5 None 0
                    (set_hospitals row3 {[ (0, 2) ]}) []) 0%nat _ _ H1 H2).
  - exact (proj2 (hill_climb_cost_decreases 5 None 0
                    (set_hospitals row3 {[ (0, 2) ]}) []) _ H3).
Defined.

(** * Further properties *)

(** ** More on the grid state *)

Lemma length_bind_const {A B : Type} (f : A → list B) (n : nat) (l : list A) :
  (∀ x, length (f x) = n) → length (l ≫= f) = (length l * n)%nat.
Proof.
  intros Hf. induction l as [|x l IH]; [done |].
  rewrite bind_cons, length_app, IH, Hf. done.
Qed.

Lemma grid_cells_size (s : Space) :
  size (grid_cells s) = (Z.to_nat (height s) * Z.to_nat (width s))%nat.
Proof.
  unfold grid_cells, range. rewrite size_list_to_set.
  - rewrite (length_bind_const _ (Z.to_nat (width s))), length_seqZ; [done |].
    intros row. rewrite (length_bind_const _ 1%nat), length_seqZ; [lia | done].
  - apply NoDup_bind; [| | apply NoDup_seqZ].
    + intros r1 r2 rc _ _ (c1 & ->%list_elem_of_ret & _)%list_elem_of_bind
        (c2 & [= -> _]%list_elem_of_ret & _)%list_elem_of_bind. done.
    + intros row _. apply NoDup_bind; [| | apply NoDup_seqZ].
      * intros c1 c2 rc _ _ ->%list_elem_of_ret [= ->]%list_elem_of_ret. done.
      * intros col _. apply NoDup_singleton.
Qed.

(** X1: [available_spaces] is exactly the set of cells inside the grid that
    are neither a house nor a hospital; it is empty when the height or the
    width is not positive. *)
Theorem available_spaces_spec (s : Space) :
  (∀ rc, rc ∈ available_spaces s
         ↔ (0 ≤ rc.1 < height s) ∧ (0 ≤ rc.2 < width s)
           ∧ (rc ∉ houses s) ∧ (rc ∉ hospitals s))
  ∧ (height s ≤ 0 ∨ width s ≤ 0 → available_spaces s = ∅).
Proof.
  split; [apply elem_of_available_spaces |].
  intros Hd. apply set_eq. intros rc. rewrite elem_of_available_spaces.
  split; [lia | intros []%not_elem_of_empty].
Qed.

(** X2: on a grid of non-negative dimensions whose houses and hospitals
    are inside the grid and on different cells, the free cells are the rest
    of the grid:
    [len(available_spaces()) + len(houses) + len(hospitals) == height * width]. *)
Theorem available_spaces_size (s : Space) :
  0 ≤ height s → 0 ≤ width s →
  (∀ h, h ∈ houses s → in_bounds s h) →
  (∀ c, c ∈ hospitals s → in_bounds s c) →
  houses s ## hospitals s →
  Z.of_nat (size (available_spaces s)) + Z.of_nat (size (houses s))
  + Z.of_nat (size (hospitals s))
  = height s * width s.
Proof.
  intros Hht Hwd Hh Hc Hd.
  assert (houses s ⊆ grid_cells s) as Hsub1.
  { intros h Hin. apply elem_of_grid_cells, Hh, Hin. }
  assert (hospitals s ⊆ grid_cells s ∖ houses s) as Hsub2.
  { intros c Hin. apply elem_of_difference. split.
    - apply elem_of_grid_cells, Hc, Hin.
    - intros Hin'. by apply (Hd c). }
  unfold available_spaces.
  rewrite size_difference by done. rewrite size_difference by done.
  pose proof (subseteq_size _ _ Hsub1) as H1.
  pose proof (subseteq_size _ _ Hsub2) as H2.
  rewrite size_difference in H2 by done.
  rewrite grid_cells_size in *. nia.
Qed.

(** ** More on the optimizer *)

(** A sample that cannot be drawn ends the call at once. *)
Lemma sample_out_of_range (fuel : nat) (maximum : option Z) (log : bool)
  (s : Space) (g : rng) :
  ¬ (0 ≤ num_hospitals s ≤ Z.of_nat (size (available_spaces s))) →
  hill_climb fuel maximum log s g = mkRun (Raised ValueError) 0 s g.
Proof.
  intros Hk. unfold hill_climb, random_sample.
  rewrite decide_False; [done |]. exact Hk.
Qed.

(** X3: when [num_hospitals] is negative or exceeds the number of
    available cells, [hill_climb] raises [ValueError] before any pass and
    leaves the object as it was. *)
Theorem hill_climb_sample_error (fuel : nat) (maximum : option Z) (log : bool)
  (s : Space) (g : rng) :
  ¬ (0 ≤ num_hospitals s ≤ Z.of_nat (size (available_spaces s))) →
  hill_climb fuel maximum log s g = mkRun (Raised ValueError) 0 s g.
Proof. apply sample_out_of_range. Qed.

(** A property of the object that every trial placement keeps is kept by
    the whole loop. *)
Lemma climb_invariant (Q : Space → Prop) (fuel : nat) (maximum : option Z)
  (cnt : Z) (s : Space) (g : rng) :
  (∀ s' n, Q s' → n ∈ trials s' → Q (set_hospitals s' n)) →
  Q s → Q (final (climb fuel maximum cnt s g)).
Proof.
  intros Hstep. revert cnt s g.
  induction fuel as [|fuel IH]; intros cnt s g HQ; simpl.
  - by case_decide.
  - case_decide; [| done]. pose proof (iteration_spec s g) as Hsp.
    destruct (iteration s g) as [P | s' g' | e]; try done.
    destruct Hsp as (P & -> & HP & _). apply IH. by apply Hstep.
Qed.

(** The loop counts its passes upwards and, under a cap, never beyond it. *)
Lemma climb_count (fuel : nat) (maximum : option Z) (cnt : Z) (s : Space) (g : rng) :
  cnt ≤ count (climb fuel maximum cnt s g)
  ∧ (∀ m, maximum = Some m → count (climb fuel maximum cnt s g) ≤ Z.max cnt m).
Proof.
  revert cnt s g. induction fuel as [|fuel IH]; intros cnt s g; simpl.
  - case_decide; simpl; split; try lia; intros m Hm; lia.
  - case_decide as Hg; simpl; [| split; [lia | intros m Hm; lia]].
    destruct (iteration s g) as [P | s' g' | e]; simpl.
    + split; [lia |]. intros m ->. simpl in Hg. lia.
    + destruct (IH (cnt + 1) s' g') as [H1 H2]. split; [lia |].
      intros m ->. specialize (H2 m eq_refl). simpl in Hg. lia.
    + split; [lia |]. intros m ->. simpl in Hg. lia.
Qed.

(** Under a cap the loop needs no more fuel than the passes left. *)
Lemma climb_capped_fuel (fuel : nat) (m cnt : Z) (s : Space) (g : rng) :
  m - cnt ≤ Z.of_nat fuel → out (climb fuel (Some m) cnt s g) ≠ OutOfFuel.
Proof.
  revert cnt s g. induction fuel as [|fuel IH]; intros cnt s g Hf; simpl.
  - rewrite decide_False by (simpl; lia). done.
  - case_decide; [| done]. destruct (iteration s g) as [P | s' g' | e]; try done.
    apply IH. lia.
Qed.

(** X4: under [maximum=m] the call makes at most [m] passes (none when
    [m <= 0]), and [m] units of fuel are enough for it to end. *)
Theorem hill_climb_cap_respected (fuel : nat) (m : Z) (log : bool)
  (s : Space) (g : rng) :
  m ≤ Z.of_nat fuel →
  0 ≤ count (hill_climb fuel (Some m) log s g) ≤ Z.max 0 m
  ∧ out (hill_climb fuel (Some m) log s g) ≠ OutOfFuel.
Proof.
  intros Hf. unfold hill_climb.
  destruct (random_sample g (elements (available_spaces s)) (num_hospitals s))
    as [[xs | e] g']; [| simpl; split; [lia | done]].
  destruct (if log then _ else _); [| simpl; split; [lia | done]].
  destruct (climb_count fuel (Some m) 0 (set_hospitals s (list_to_set xs)) g')
    as [H1 H2].
  specialize (H2 m eq_refl). split; [lia |]. apply climb_capped_fuel. lia.
Qed.

(** The loop without a cap is never left through its condition. *)
Lemma climb_uncapped_not_None (fuel : nat) (cnt : Z) (s : Space) (g : rng) :
  out (climb fuel None cnt s g) ≠ Returned None.
Proof.
  revert cnt s g. induction fuel as [|fuel IH]; intros cnt s g; simpl; [done |].
  destruct (iteration s g) as [P | s' g' | e]; [done | apply IH | done].
Qed.

(** The loop without a cap ends once it has fuel for more passes than the
    cost of the placement it starts from: by a [return] of a placement or
    by an exception. *)
Lemma climb_uncapped_ends (s : Space) :
  ∃ N : nat, ∀ fuel cnt g, (N ≤ fuel)%nat →
    (∃ P, out (climb fuel None cnt s g) = Returned (Some P))
    ∨ (∃ e, out (climb fuel None cnt s g) = Raised e).
Proof.
  destruct (decide (hospitals s = ∅)) as [He | Hne].
  - exists 1%nat. intros [|fuel] cnt g Hf; [lia |]. simpl.
    pose proof (iteration_spec s g) as Hsp.
    assert (trials s = []) as Htr.
    { apply trials_nil. intros h Hh. rewrite He in Hh.
      by apply not_elem_of_empty in Hh. }
    destruct (iteration s g) as [Q | s' g' | e]; simpl.
    + left. eauto.
    + destruct Hsp as (Q & _ & HQ & _). rewrite Htr in HQ. inversion HQ.
    + right. eauto.
  - exists (S (Z.to_nat (total_cost s (hospitals s)))). intros fuel cnt g Hf.
    destruct (climb_terminates fuel cnt s g Hne) as [[Ho | Ho] _].
    + pose proof (total_cost_nonneg s (hospitals s)). lia.
    + by left.
    + right. eauto.
Qed.

(** X5: a call without [maximum] never returns [None], and it ends: from
    some amount of fuel on, the call has returned a placement or raised. *)
Theorem hill_climb_uncapped_returns_or_raises (log : bool) (s : Space) (g : rng) :
  (∀ fuel, out (hill_climb fuel None log s g) ≠ Returned None)
  ∧ ∃ N : nat, ∀ fuel, (N ≤ fuel)%nat →
      (∃ P, out (hill_climb fuel None log s g) = Returned (Some P))
      ∨ (∃ e, out (hill_climb fuel None log s g) = Raised e).
Proof.
  unfold hill_climb.
  destruct (random_sample g (elements (available_spaces s)) (num_hospitals s))
    as [[xs | e] g'].
  2:{ split; [done |]. exists 0%nat. intros fuel _. right. eauto. }
  destruct (if log then _ else _).
  2:{ split; [done |]. exists 0%nat. intros fuel _. right. eauto. }
  split; [intros fuel; apply climb_uncapped_not_None |].
  destruct (climb_uncapped_ends (set_hospitals s (list_to_set xs))) as [N HN].
  exists N. intros fuel Hf. by apply HN.
Qed.

(** What the loop leaves behind when it returns a placement or raises. *)
Lemma climb_end (fuel : nat) (maximum : option Z) (cnt : Z) (s : Space) (g : rng) :
  match out (climb fuel maximum cnt s g) with
  | Returned (Some P) =>
      P = hospitals (final (climb fuel maximum cnt s g))
      ∧ trials (final (climb fuel maximum cnt s g)) ≠ []
      ∧ ∀ n, n ∈ trials (final (climb fuel maximum cnt s g)) →
             total_cost s P ≤ total_cost s n
  | Raised e =>
      trials (final (climb fuel maximum cnt s g)) = []
      ∧ e = stuck_exn (final (climb fuel maximum cnt s g))
  | _ => True
  end.
Proof.
  revert cnt s g. induction fuel as [|fuel IH]; intros cnt s g; simpl.
  - by case_decide.
  - case_decide; [| done]. pose proof (iteration_spec s g) as Hsp.
    destruct (iteration s g) as [Q | s' g' | e]; simpl.
    + destruct Hsp as (-> & Htr & Hmin). done.
    + destruct Hsp as (Q & -> & _). apply (IH (cnt + 1) (set_hospitals s Q) g').
    + done.
Qed.

(** X6: a placement the loop returns is a local optimum: it has a hospital
    with a free neighbour, and moving any one hospital to any of its valid
    neighbours does not lower the cost. *)
Theorem climb_returns_local_optimum (fuel : nat) (maximum : option Z) (cnt : Z)
  (s : Space) (g : rng) (P : placement) :
  out (climb fuel maximum cnt s g) = Returned (Some P) →
  hospitals (final (climb fuel maximum cnt s g)) = P
  ∧ (∃ h, h ∈ P ∧ get_neighbors (final (climb fuel maximum cnt s g)) h.1 h.2 ≠ [])
  ∧ ∀ h r, h ∈ P →
           r ∈ get_neighbors (final (climb fuel maximum cnt s g)) h.1 h.2 →
           ∃ c c', get_cost s P = Ok c
                   ∧ get_cost s (neighbor_of P h r) = Ok c' ∧ c ≤ c'.
Proof.
  intros Hout. pose proof (climb_end fuel maximum cnt s g) as He.
  rewrite Hout in He. destruct He as (HP & Htr & Hmin).
  set (f := final (climb fuel maximum cnt s g)) in *.
  split; [done |]. split.
  - destruct (trials f) as [|n l] eqn:E; [done |].
    assert (n ∈ trials f) as (h & r & Hh & Hr & _)%elem_of_trials
      by (rewrite E; left).
    exists h. rewrite HP. split; [done |]. intros Hn. rewrite Hn in Hr. inversion Hr.
  - intros h r Hh Hr.
    assert (neighbor_of P h r ∈ trials f) as Hin.
    { apply elem_of_trials. exists h, r. by rewrite <- HP. }
    exists (total_cost s P), (total_cost s (neighbor_of P h r)).
    rewrite !get_cost_total;
      [auto | apply neighbor_of_nonempty | by apply (non_empty_inhabited_L h)].
Qed.

(** X7: the loop raises only in a pass where no hospital of the placement
    it has reached has a valid neighbour, and then with [TypeError], or
    with [ValueError] when that placement is empty and there is a house. *)
Theorem climb_raises_only_when_stuck (fuel : nat) (maximum : option Z) (cnt : Z)
  (s : Space) (g : rng) (e : exn) :
  out (climb fuel maximum cnt s g) = Raised e →
  (∀ h, h ∈ hospitals (final (climb fuel maximum cnt s g)) →
        get_neighbors (final (climb fuel maximum cnt s g)) h.1 h.2 = [])
  ∧ e = (if decide (hospitals (final (climb fuel maximum cnt s g)) = ∅
                    ∧ houses s ≠ ∅)
         then ValueError else TypeError).
Proof.
  intros Hout. pose proof (climb_end fuel maximum cnt s g) as He.
  rewrite Hout in He. destruct He as [Htr ->]. split; [by apply trials_nil |].
  unfold stuck_exn. by rewrite climb_houses.
Qed.

(** X8: a pass that moves is a steepest-descent step: the new placement is
    one of the trial placements, no trial placement costs less, it costs
    strictly less than the current placement, and nothing but
    [self.hospitals] changes. *)
Theorem iteration_moves_to_best (s s' : Space) (g g' : rng) :
  iteration s g = Moved s' g' →
  s' = set_hospitals s (hospitals s')
  ∧ hospitals s' ∈ trials s
  ∧ ∃ c c', get_cost s (hospitals s) = Ok c
            ∧ get_cost s (hospitals s') = Ok c'
            ∧ c' < c
            ∧ ∀ n, n ∈ trials s → ∃ cn, get_cost s n = Ok cn ∧ c' ≤ cn.
Proof.
  intros Hit. pose proof (iteration_spec s g) as Hsp. rewrite Hit in Hsp.
  destruct Hsp as (P & -> & HP & Hne & Hlt & Hmin). simpl.
  split; [done |]. split; [done |].
  exists (total_cost s (hospitals s)), (total_cost s P).
  rewrite !get_cost_total by (done || by eapply trial_nonempty).
  split_and!; [done | done | done |].
  intros n Hn. exists (total_cost s n).
  rewrite get_cost_total by by eapply trial_nonempty. auto.
Qed.

(** X9: the inner loops never raise; they leave the least cost among the
    trial placements and the list of exactly the trial placements of that
    cost (ties are all kept), or [None] and the empty list when there is no
    trial placement. *)
Theorem scan_collects_ties (s : Space) :
  ∃ st, scan s (mkScan None []) (trials s) = Ok st
        ∧ match best_neighbor_cost st with
          | None => trials s = [] ∧ best_neighbors st = []
          | Some b =>
              (∀ n, n ∈ trials s → ∃ c, get_cost s n = Ok c ∧ b ≤ c)
              ∧ best_neighbors st ≠ []
              ∧ (∀ n, n ∈ best_neighbors st
                      ↔ n ∈ trials s ∧ get_cost s n = Ok b)
          end.
Proof.
  destruct (scan_trials s) as (st & Hscan & Hst). exists st.
  split; [done |]. unfold scanned in Hst.
  destruct (best_neighbor_cost st) as [b|]; [| done].
  destruct Hst as (Hle & Hne & Hiff). split_and!; [| done |].
  - intros n Hn. exists (total_cost s n).
    rewrite get_cost_total by by eapply trial_nonempty. auto.
  - intros n. rewrite Hiff. split.
    + intros [Hn <-]. split; [done |]. apply get_cost_total.
      by eapply trial_nonempty.
    + intros [Hn Hc]. split; [done |].
      rewrite get_cost_total in Hc by by eapply trial_nonempty. congruence.
Qed.

(** ** Invariants of a run *)

Lemma neighbor_of_size (P : placement) (h r : cell) :
  h ∈ P → r ∉ P → size (neighbor_of P h r) = size P.
Proof.
  intros Hh Hr. unfold neighbor_of.
  rewrite size_union. 2:{ intros x [Hx _]%elem_of_difference ->%elem_of_singleton. done. }
  rewrite size_difference by (by apply elem_of_subseteq_singleton).
  rewrite !size_singleton.
  assert (size P ≠ 0%nat); [| lia].
  apply size_non_empty_iff. intros He. rewrite He in Hh. by apply not_elem_of_empty in Hh.
Qed.

Lemma trial_cells (s : Space) (n : placement) :
  n ∈ trials s →
  size n = size (hospitals s) ∧ ∀ c, c ∈ n → c ∈ hospitals s ∨ valid s c.
Proof.
  intros (h & r & Hh & Hr & ->)%elem_of_trials.
  apply get_neighbors_valid in Hr. split.
  - apply neighbor_of_size; [done |]. unfold valid in Hr. tauto.
  - unfold neighbor_of.
    intros c [[Hc _]%elem_of_difference | ->%elem_of_singleton]%elem_of_union; auto.
Qed.

(** The loop changes nothing but [self.hospitals]. *)
Lemma climb_frame (fuel : nat) (maximum : option Z) (cnt : Z) (s : Space) (g : rng) :
  final (climb fuel maximum cnt s g)
  = set_hospitals s (hospitals (final (climb fuel maximum cnt s g))).
Proof.
  apply (climb_invariant (λ s', s' = set_hospitals s (hospitals s'))).
  - intros s' n -> _. done.
  - by destruct s.
Qed.

Lemma hill_climb_final (fuel : nat) (maximum : option Z) (log : bool)
  (s : Space) (g : rng) :
  final (hill_climb fuel maximum log s g)
  = set_hospitals s (hospitals (final (hill_climb fuel maximum log s g))).
Proof.
  unfold hill_climb.
  destruct (random_sample g (elements (available_spaces s)) (num_hospitals s))
    as [[xs | e] g']; [| by destruct s].
  destruct (if log then _ else _); [| done].
  rewrite climb_frame at 1. done.
Qed.

(** X10: [hill_climb] changes nothing of the object but [self.hospitals]:
    the houses, the dimensions and [num_hospitals] are as before, whatever
    the outcome. *)
Theorem hill_climb_frame (fuel : nat) (maximum : option Z) (log : bool)
  (s : Space) (g : rng) :
  houses (final (hill_climb fuel maximum log s g)) = houses s
  ∧ height (final (hill_climb fuel maximum log s g)) = height s
  ∧ width (final (hill_climb fuel maximum log s g)) = width s
  ∧ num_hospitals (final (hill_climb fuel maximum log s g)) = num_hospitals s.
Proof. rewrite hill_climb_final. done. Qed.

(** The sample and every move keep the number of hospitals and keep them
    on free cells of the grid. *)
Lemma placement_invariant (fuel : nat) (maximum : option Z)
  (log : bool) (s : Space) (g : rng) :
  0 ≤ num_hospitals s ≤ Z.of_nat (size (available_spaces s)) →
  Z.of_nat (size (hospitals (final (hill_climb fuel maximum log s g))))
  = num_hospitals s
  ∧ (∀ c, c ∈ hospitals (final (hill_climb fuel maximum log s g)) →
          in_bounds s c ∧ c ∉ houses s)
  ∧ (∀ P, out (hill_climb fuel maximum log s g) = Returned (Some P) →
          P = hospitals (final (hill_climb fuel maximum log s g))).
Proof.
  intros Hk. unfold hill_climb.
  pose proof (random_sample_spec g (elements (available_spaces s)) (num_hospitals s))
    as Hsample.
  destruct (random_sample g (elements (available_spaces s)) (num_hospitals s))
    as [[xs | e] g']; simpl in Hsample.
  2:{ destruct Hsample as [_ Hn]. exfalso. apply Hn. exact Hk. }
  destruct Hsample as (_ & Hlen & Hin & Hnd).
  set (s1 := set_hospitals s (list_to_set xs)).
  assert (Z.of_nat (size (hospitals s1)) = num_hospitals s
          ∧ ∀ c, c ∈ hospitals s1 → in_bounds s c ∧ c ∉ houses s) as Hs1.
  { simpl. split.
    - rewrite size_list_to_set; [done |]. apply Hnd, NoDup_elements.
    - intros c Hc%elem_of_list_to_set%Hin%elem_of_elements%elem_of_available_spaces.
      unfold in_bounds. tauto. }
  destruct (if log then _ else _); [| simpl; split_and!; [apply Hs1 | apply Hs1 | done]].
  pose proof (climb_invariant
    (λ s', houses s' = houses s ∧ height s' = height s ∧ width s' = width s
           ∧ Z.of_nat (size (hospitals s')) = num_hospitals s
           ∧ ∀ c, c ∈ hospitals s' → in_bounds s c ∧ c ∉ houses s)
    fuel maximum 0 s1 g') as Hinv.
  destruct Hinv as (_ & _ & _ & Hsz & Hcells).
  - intros s' n (Hh & Hht & Hwd & Hsz & Hcells) Hn.
    destruct (trial_cells s' n Hn) as [Hsize Hc]. simpl.
    split_and!; [done | done | done | by rewrite Hsize |].
    intros c [Hc' | Hv]%Hc; [auto |].
    unfold valid in Hv. unfold in_bounds. rewrite <- Hh, <- Hht, <- Hwd. tauto.
  - destruct Hs1 as [Hsz1 Hc1]. split_and!; done.
  - split_and!; [done | done |]. intros P HP.
    pose proof (climb_end fuel maximum 0 s1 g') as He. rewrite HP in He. tauto.
Qed.

(** X11: once the sample has been drawn, [self.hospitals] always holds
    exactly [num_hospitals] cells, all of them inside the grid and none of
    them a house; a placement the call returns is the one left in
    [self.hospitals]. *)
Theorem hill_climb_placement_invariant (fuel : nat) (maximum : option Z)
  (log : bool) (s : Space) (g : rng) :
  0 ≤ num_hospitals s ≤ Z.of_nat (size (available_spaces s)) →
  Z.of_nat (size (hospitals (final (hill_climb fuel maximum log s g))))
  = num_hospitals s
  ∧ (∀ c, c ∈ hospitals (final (hill_climb fuel maximum log s g)) →
          in_bounds s c ∧ c ∉ houses s)
  ∧ (∀ P, out (hill_climb fuel maximum log s g) = Returned (Some P) →
          P = hospitals (final (hill_climb fuel maximum log s g))).
Proof. apply placement_invariant. Qed.

(** ** More on the cost *)

Lemma foldr_add_mono {A : Type} (f f' : A → Z) (l : list A) :
  (∀ x, x ∈ l → f x ≤ f' x) →
  foldr Z.add 0 (f <$> l) ≤ foldr Z.add 0 (f' <$> l).
Proof.
  induction l as [|a l IH]; intros Hl; [done |].
  assert (f a ≤ f' a) by (apply Hl; left).
  assert (foldr Z.add 0 (f <$> l) ≤ foldr Z.add 0 (f' <$> l)).
  { apply IH. intros x Hx. apply Hl. by right. }
  rewrite !fmap_cons. simpl. lia.
Qed.

(** X12: more hospitals never cost more: on a non-empty placement [P] and
    any placement [Q] containing it, [get_cost(Q) <= get_cost(P)]. *)
Theorem get_cost_antitone (s : Space) (P Q : placement) :
  P ≠ ∅ → P ⊆ Q →
  ∃ c c', get_cost s P = Ok c ∧ get_cost s Q = Ok c' ∧ c' ≤ c.
Proof.
  intros HP Hsub.
  assert (Q ≠ ∅) as HQ.
  { intros He. apply HP. apply set_eq. intros x. rewrite He in Hsub.
    split; [apply Hsub | intros []%not_elem_of_empty]. }
  exists (total_cost s P), (total_cost s Q).
  rewrite !get_cost_total by done. split_and!; [done | done |].
  apply foldr_add_mono. intros h _.
  destruct (nearest_spec P h HP) as [(c & Hc & ->) _].
  destruct (nearest_spec Q h HQ) as [_ Hle]. apply Hle, Hsub, Hc.
Qed.

(** X13: with the houses and the hospitals inside the grid, the cost of a
    non-empty placement is at most [len(houses) * (height + width - 2)]. *)
Theorem get_cost_upper_bound (s : Space) (P : placement) :
  P ≠ ∅ →
  (∀ h, h ∈ houses s → in_bounds s h) →
  (∀ c, c ∈ P → in_bounds s c) →
  ∃ c, get_cost s P = Ok c
       ∧ 0 ≤ c ≤ Z.of_nat (size (houses s)) * (height s + width s - 2).
Proof.
  intros HP Hh Hc. exists (total_cost s P).
  split; [by apply get_cost_total |].
  split; [apply total_cost_nonneg | by apply total_cost_le].
Qed.

Lemma foldr_add_perm (l l' : list Z) :
  l ≡ₚ l' → foldr Z.add 0 l = foldr Z.add 0 l'.
Proof. induction 1; simpl; lia. Qed.

(** X14: adding a house on a cell that has none raises the cost of a
    non-empty placement by the distance from that cell to the nearest
    hospital; adding a house where there is one already changes nothing. *)
Theorem add_house_cost (s : Space) (row col : Z) (P : placement) :
  P ≠ ∅ →
  ∃ c d, get_cost s P = Ok c
         ∧ py_min (distance (row, col) <$> elements P) = Ok d
         ∧ get_cost (add_house s row col) P
           = Ok (if decide ((row, col) ∈ houses s) then c else c + d).
Proof.
  intros HP. exists (total_cost s P), (nearest P (row, col)).
  rewrite !get_cost_total, py_min_nearest by done.
  split_and!; [done | done |]. f_equal. unfold total_cost. simpl.
  case_decide as Hin.
  - assert ({[(row, col)]} ∪ houses s = houses s) as ->; [| done].
    apply set_eq. intros x. rewrite elem_of_union, elem_of_singleton.
    split; [intros [-> | ?]; done | auto].
  - rewrite (foldr_add_perm _ (nearest P <$> (row, col) :: elements (houses s))).
    + rewrite fmap_cons. simpl. lia.
    + apply fmap_Permutation. by apply elements_union_singleton.
Qed.

(** X15: [add_house] is idempotent and the order of two calls does not
    matter. *)
Theorem add_house_idempotent_commutes (s : Space) (r1 c1 r2 c2 : Z) :
  add_house (add_house s r1 c1) r1 c1 = add_house s r1 c1
  ∧ add_house (add_house s r1 c1) r2 c2 = add_house (add_house s r2 c2) r1 c1.
Proof.
  unfold add_house. simpl. split; f_equal; apply set_eq; intros x;
    rewrite !elem_of_union; tauto.
Qed.

(** X16: the distance between cells is a metric: symmetric, zero exactly
    between a cell and itself, and obeying the triangle inequality; cells
    next to each other are at distance 1. *)
Theorem distance_metric (a b c : cell) :
  distance a b = distance b a
  ∧ (distance a b = 0 ↔ a = b)
  ∧ distance a c ≤ distance a b + distance b c
  ∧ (b ∈ candidates a.1 a.2 → distance a b = 1).
Proof.
  split_and!.
  - unfold distance. lia.
  - apply distance_zero.
  - unfold distance. lia.
  - unfold candidates. rewrite !elem_of_cons, elem_of_nil.
    destruct a as [r q]. simpl. unfold distance.
    intros [-> | [-> | [-> | [-> | []]]]]; simpl; lia.
Qed.

(** ** The random-restart driver *)

Lemma get_cost_houses (s s' : Space) (P : placement) :
  houses s = houses s' → get_cost s P = get_cost s' P.
Proof. unfold get_cost. by intros ->. Qed.

Lemma hill_climb_houses (fuel : nat) (maximum : option Z) (log : bool)
  (s : Space) (g : rng) :
  houses (final (hill_climb fuel maximum log s g)) = houses s.
Proof. rewrite hill_climb_final. done. Qed.

(** Once a best placement is held the driver never returns [None]. *)
Lemma restarts_Some_not_None (fuel n : nat) (B : placement) (bc : option Z)
  (s : Space) (g : rng) :
  out (restarts fuel n (Some B) bc s g) ≠ Returned None.
Proof.
  revert B bc s g. induction n as [|n IH]; intros B bc s g; simpl; [done |].
  destruct (out (hill_climb fuel None false s g)) as [[P|] | e |]; try done.
  destruct (get_cost _ P) as [cost | e]; [| done].
  destruct bc as [b|]; [case_decide |]; apply IH.
Qed.

(** X17: [random_restart] returns [None] exactly when it is asked for no
    round at all ([maximum <= 0]); the object is then left as it was. *)
Theorem random_restart_None_iff (fuel : nat) (maximum : Z) (s : Space) (g : rng) :
  (out (random_restart fuel maximum s g) = Returned None ↔ maximum ≤ 0)
  ∧ (maximum ≤ 0 → random_restart fuel maximum s g = mkRun (Returned None) 0 s g).
Proof.
  unfold random_restart. split; [split |].
  - destruct (Z.to_nat maximum) as [|n] eqn:E; [lia |]. simpl.
    destruct (out (hill_climb fuel None false s g)) as [[P|] | e |]; try done.
    destruct (get_cost _ P) as [cost | e]; [| done].
    intros H. by apply restarts_Some_not_None in H.
  - intros Hm. by replace (Z.to_nat maximum) with 0%nat by lia.
  - intros Hm. by replace (Z.to_nat maximum) with 0%nat by lia.
Qed.

(** The driver's loop: the placement returned is the best held at the
    start, or the first of the following runs' placements to cost strictly
    less than everything before it and no more than everything after. *)
Lemma restarts_best (fuel n : nat) (bh : option placement) (bc : option Z)
  (s : Space) (g : rng) (P : placement) :
  out (restarts fuel n bh bc s g) = Returned (Some P) →
  length (restart_runs fuel n s g) = n
  ∧ ((bh = Some P
      ∧ ∀ b Q, bc = Some b → Q ∈ restart_runs fuel n s g →
               ∃ c', get_cost s Q = Ok c' ∧ b ≤ c')
     ∨ (∃ l1 l2 c,
          restart_runs fuel n s g = l1 ++ P :: l2
          ∧ get_cost s P = Ok c
          ∧ (∀ b, bc = Some b → c < b)
          ∧ (∀ Q, Q ∈ l1 → ∃ c', get_cost s Q = Ok c' ∧ c < c')
          ∧ (∀ Q, Q ∈ l2 → ∃ c', get_cost s Q = Ok c' ∧ c ≤ c'))).
Proof.
  revert bh bc s g. induction n as [|n IH]; intros bh bc s g; simpl.
  { intros [= ->]. split; [done |]. left. split; [done |].
    intros b Q _ HQ. inversion HQ. }
  pose proof (hill_climb_houses fuel None false s g) as Hh.
  destruct (hill_climb fuel None false s g) as [o cnt f g1]. simpl in *.
  destruct o as [[P0|] | e |]; try done.
  rewrite (get_cost_houses f s P0 Hh).
  destruct (get_cost s P0) as [cost | e] eqn:Ecost; [| done].
  assert (∀ Q, get_cost f Q = get_cost s Q) as Hg
    by (intros Q; by apply get_cost_houses).
  assert (∀ bh' bc',
    (bh' = Some P0 ∧ bc' = Some cost ∧ (∀ b, bc = Some b → cost < b)
     ∨ bh' = bh ∧ bc' = bc ∧ (∀ b, bc' = Some b → b ≤ cost) ∧ bc ≠ None) →
    out (restarts fuel n bh' bc' f g1) = Returned (Some P) →
    length (P0 :: restart_runs fuel n f g1) = S n
    ∧ ((bh = Some P
        ∧ ∀ b Q, bc = Some b → Q ∈ P0 :: restart_runs fuel n f g1 →
                 ∃ c', get_cost s Q = Ok c' ∧ b ≤ c')
       ∨ (∃ l1 l2 c,
            P0 :: restart_runs fuel n f g1 = l1 ++ P :: l2
            ∧ get_cost s P = Ok c
            ∧ (∀ b, bc = Some b → c < b)
            ∧ (∀ Q, Q ∈ l1 → ∃ c', get_cost s Q = Ok c' ∧ c < c')
            ∧ (∀ Q, Q ∈ l2 → ∃ c', get_cost s Q = Ok c' ∧ c ≤ c')))) as Hcase.
  { intros bh' bc' Hcase Hout.
    destruct (IH bh' bc' f g1 Hout) as [Hlen Hres].
    split; [simpl; by rewrite Hlen |].
    destruct Hcase as [(-> & -> & Hlt) | (-> & -> & Hge & Hbc)].
    - right. destruct Hres as [[[= <-] Hall] | (l1 & l2 & c & -> & Hc & Hb & H1 & H2)].
      + exists [], (restart_runs fuel n f g1), cost.
        split_and!; [done | done | done | intros Q HQ; inversion HQ |].
        intros Q HQ. destruct (Hall cost Q eq_refl HQ) as (c' & Hc' & Hle).
        exists c'. by rewrite <- Hg.
      + rewrite Hg in Hc. specialize (Hb cost eq_refl).
        exists (P0 :: l1), l2, c. split_and!; [done | done | | |].
        * intros b Hbc. specialize (Hlt b Hbc). lia.
        * intros Q [-> | HQ]%elem_of_cons; [exists cost; split; [done | lia] |].
          destruct (H1 Q HQ) as (c' & Hc' & ?). exists c'. by rewrite <- Hg.
        * intros Q HQ. destruct (H2 Q HQ) as (c' & Hc' & ?).
          exists c'. by rewrite <- Hg.
    - destruct Hres as [[-> Hall] | (l1 & l2 & c & -> & Hc & Hb & H1 & H2)].
      + left. split; [done |]. intros b Q Hb [-> | HQ]%elem_of_cons.
        * exists cost. split; [done | by apply Hge].
        * destruct (Hall b Q Hb HQ) as (c' & Hc' & ?). exists c'. by rewrite <- Hg.
      + right. rewrite Hg in Hc. exists (P0 :: l1), l2, c.
        split_and!; [done | done | done | |].
        * intros Q [-> | HQ]%elem_of_cons.
          -- exists cost. split; [done |]. destruct bc as [b|]; [| done].
             specialize (Hb b eq_refl). specialize (Hge b eq_refl). lia.
          -- destruct (H1 Q HQ) as (c' & Hc' & ?). exists c'. by rewrite <- Hg.
        * intros Q HQ. destruct (H2 Q HQ) as (c' & Hc' & ?).
          exists c'. by rewrite <- Hg. }
  destruct bc as [b|].
  - case_decide as Hlt.
    + apply Hcase. left. split_and!; [done | done |]. by intros ? [= <-].
    + apply Hcase. right. split_and!; [done | done | | done].
      intros ? [= <-]. lia.
  - apply Hcase. left. split_and!; done.
Qed.

(** X18: a placement [random_restart] returns is the best of the
    placements its runs returned: all [maximum] rounds returned one, it is
    one of them, it costs strictly less than each earlier one and no more
    than each later one. *)
Theorem random_restart_best (fuel : nat) (maximum : Z) (s : Space) (g : rng)
  (P : placement) :
  out (random_restart fuel maximum s g) = Returned (Some P) →
  length (restart_runs fuel (Z.to_nat maximum) s g) = Z.to_nat maximum
  ∧ ∃ l1 l2 c,
      restart_runs fuel (Z.to_nat maximum) s g = l1 ++ P :: l2
      ∧ get_cost s P = Ok c
      ∧ (∀ Q, Q ∈ l1 → ∃ c', get_cost s Q = Ok c' ∧ c < c')
      ∧ (∀ Q, Q ∈ l2 → ∃ c', get_cost s Q = Ok c' ∧ c ≤ c').
Proof.
  intros Hout. unfold random_restart in Hout.
  destruct (restarts_best _ _ _ _ _ _ _ Hout)
    as [Hlen [[[=] _] | (l1 & l2 & c & Hr & Hc & _ & H1 & H2)]].
  split; [done |]. by exists l1, l2, c.
Qed.

(** The object after the driver's loop: nothing but [self.hospitals] has
    changed. *)
Lemma restarts_frame (fuel n : nat) (bh : option placement) (bc : option Z)
  (s : Space) (g : rng) :
  final (restarts fuel n bh bc s g)
  = set_hospitals s (hospitals (final (restarts fuel n bh bc s g))).
Proof.
  revert bh bc s g. induction n as [|n IH]; intros bh bc s g; simpl.
  { by destruct s. }
  pose proof (hill_climb_final fuel None false s g) as Hf.
  destruct (hill_climb fuel None false s g) as [o cnt f g1]. simpl in *.
  assert (∀ bh' bc', final (restarts fuel n bh' bc' f g1)
    = set_hospitals s (hospitals (final (restarts fuel n bh' bc' f g1)))) as Hrec.
  { intros bh' bc'. rewrite IH at 1. rewrite Hf. done. }
  destruct o as [[P0|] | e |]; simpl; try (rewrite Hf at 1; done).
  destruct (get_cost f P0) as [cost | e]; simpl; [| rewrite Hf at 1; done].
  destruct bc as [b|]; [case_decide |]; apply Hrec.
Qed.

(** X19: [random_restart] changes nothing of the object but
    [self.hospitals], whatever the outcome. *)
Theorem random_restart_frame (fuel : nat) (maximum : Z) (s : Space) (g : rng) :
  houses (final (random_restart fuel maximum s g)) = houses s
  ∧ height (final (random_restart fuel maximum s g)) = height s
  ∧ width (final (random_restart fuel maximum s g)) = width s
  ∧ num_hospitals (final (random_restart fuel maximum s g)) = num_hospitals s.
Proof. unfold random_restart. rewrite restarts_frame. done. Qed.

(** ** The further theorems at concrete inputs *)

Lemma row3_houses_in_bounds (s : Space) :
  houses s = houses row3 → height s = 1 → width s = 3 →
  ∀ h, h ∈ houses s → in_bounds s h.
Proof.
  intros -> Hh Hw h Hin. unfold in_bounds. rewrite Hh, Hw.
  apply elem_of_union in Hin as [Hin | Hin].
  - apply elem_of_singleton in Hin as ->. simpl. lia.
  - by apply not_elem_of_empty in Hin.
Qed.

Lemma available_spaces_size_witness :
  0 ≤ height row3_settled
  ∧ 0 ≤ width row3_settled
  ∧ (∀ h, h ∈ houses row3_settled → in_bounds row3_settled h)
  ∧ (∀ c, c ∈ hospitals row3_settled → in_bounds row3_settled c)
  ∧ houses row3_settled ## hospitals row3_settled
  ∧ Z.of_nat (size (available_spaces row3_settled))
    + Z.of_nat (size (houses row3_settled))
    + Z.of_nat (size (hospitals row3_settled))
    = height row3_settled * width row3_settled.
Proof.
  assert (0 ≤ height row3_settled) as H1 by (vm_compute; discriminate).
  assert (0 ≤ width row3_settled) as H2 by (vm_compute; discriminate).
  assert (∀ h, h ∈ houses row3_settled → in_bounds row3_settled h) as H3
    by (by apply row3_houses_in_bounds).
  assert (∀ c, c ∈ hospitals row3_settled → in_bounds row3_settled c) as H4.
  { intros c Hc. unfold row3_settled in Hc. simpl in Hc.
    apply elem_of_singleton in Hc as ->. unfold in_bounds. simpl. lia. }
  assert (houses row3_settled ## hospitals row3_settled) as H5.
  { intros x Hx1 Hx2. unfold row3_settled, row3 in Hx1, Hx2. simpl in Hx1, Hx2.
    apply elem_of_singleton in Hx2 as ->.
    apply elem_of_union in Hx1 as [Hx1 | Hx1].
    - apply elem_of_singleton in Hx1. discriminate Hx1.
    - by apply not_elem_of_empty in Hx1. }
  split; [exact H1 |]. split; [exact H2 |]. split; [exact H3 |].
  split; [exact H4 |]. split; [exact H5 |].
  exact (available_spaces_size row3_settled H1 H2 H3 H4 H5).
Defined.

Lemma hill_climb_sample_error_witness :
  ¬ (0 ≤ num_hospitals crowded ≤ Z.of_nat (size (available_spaces crowded)))
  ∧ hill_climb 3 None false crowded [] = mkRun (Raised ValueError) 0 crowded [].
Proof.
  assert (¬ (0 ≤ num_hospitals crowded
             ≤ Z.of_nat (size (available_spaces crowded)))) as H.
  { vm_compute. intros [_ Hle]. by apply Hle. }
  split; [exact H | exact (hill_climb_sample_error 3 None false crowded [] H)].
Defined.

Lemma hill_climb_cap_respected_witness :
  1 ≤ Z.of_nat 1
  ∧ 0 ≤ count (hill_climb 1 (Some 1) false row3 []) ≤ Z.max 0 1
  ∧ out (hill_climb 1 (Some 1) false row3 []) ≠ OutOfFuel.
Proof.
  assert (1 ≤ Z.of_nat 1) as H by (vm_compute; discriminate).
  split; [exact H | exact (hill_climb_cap_respected 1 1 false row3 [] H)].
Defined.

Lemma climb_returns_local_optimum_witness :
  out (climb 5 None 0 row3_far []) = Returned (Some {[ (0, 1) ]})
  ∧ hospitals (final (climb 5 None 0 row3_far [])) = {[ (0, 1) ]}
  ∧ (∃ h, h ∈ ({[ (0, 1) ]} : placement)
          ∧ get_neighbors (final (climb 5 None 0 row3_far [])) h.1 h.2 ≠ [])
  ∧ ∀ h r, h ∈ ({[ (0, 1) ]} : placement) →
           r ∈ get_neighbors (final (climb 5 None 0 row3_far [])) h.1 h.2 →
           ∃ c c', get_cost row3_far {[ (0, 1) ]} = Ok c
                   ∧ get_cost row3_far (neighbor_of {[ (0, 1) ]} h r) = Ok c'
                   ∧ c ≤ c'.
Proof.
  assert (out (climb 5 None 0 row3_far []) = Returned (Some {[ (0, 1) ]})) as H
    by (vm_compute; reflexivity).
  split; [exact H |].
  exact (climb_returns_local_optimum 5 None 0 row3_far [] {[ (0, 1) ]} H).
Defined.

Lemma climb_raises_only_when_stuck_witness :
  out (climb 1 None 0 lone_cell []) = Raised TypeError
  ∧ (∀ h, h ∈ hospitals (final (climb 1 None 0 lone_cell [])) →
          get_neighbors (final (climb 1 None 0 lone_cell [])) h.1 h.2 = [])
  ∧ TypeError
    = (if decide (hospitals (final (climb 1 None 0 lone_cell [])) = ∅
                  ∧ houses lone_cell ≠ ∅)
       then ValueError else TypeError).
Proof.
  assert (out (climb 1 None 0 lone_cell []) = Raised TypeError) as H
    by (vm_compute; reflexivity).
  split; [exact H |].
  exact (climb_raises_only_when_stuck 1 None 0 lone_cell [] TypeError H).
Defined.

Lemma iteration_moves_to_best_witness :
  iteration row3_far [] = Moved row3_settled []
  ∧ row3_settled = set_hospitals row3_far (hospitals row3_settled)
  ∧ hospitals row3_settled ∈ trials row3_far
  ∧ ∃ c c', get_cost row3_far (hospitals row3_far) = Ok c
            ∧ get_cost row3_far (hospitals row3_settled) = Ok c'
            ∧ c' < c
            ∧ ∀ n, n ∈ trials row3_far → ∃ cn, get_cost row3_far n = Ok cn ∧ c' ≤ cn.
Proof.
  assert (iteration row3_far [] = Moved row3_settled []) as H
    by (vm_compute; reflexivity).
  split; [exact H |].
  exact (iteration_moves_to_best row3_far row3_settled [] [] H).
Defined.

Lemma hill_climb_placement_invariant_witness :
  0 ≤ num_hospitals row3 ≤ Z.of_nat (size (available_spaces row3))
  ∧ Z.of_nat (size (hospitals (final (hill_climb 3 None false row3 []))))
    = num_hospitals row3
  ∧ (∀ c, c ∈ hospitals (final (hill_climb 3 None false row3 [])) →
          in_bounds row3 c ∧ c ∉ houses row3)
  ∧ (∀ P, out (hill_climb 3 None false row3 []) = Returned (Some P) →
          P = hospitals (final (hill_climb 3 None false row3 []))).
Proof.
  assert (0 ≤ num_hospitals row3 ≤ Z.of_nat (size (available_spaces row3))) as H
    by (vm_compute; split; discriminate).
  split; [exact H |].
  exact (hill_climb_placement_invariant 3 None false row3 [] H).
Defined.

Lemma get_cost_antitone_witness :
  ({[ (0, 2) ]} : placement) ≠ ∅
  ∧ ({[ (0, 2) ]} : placement) ⊆ {[ (0, 1); (0, 2) ]}
  ∧ ∃ c c', get_cost row3 {[ (0, 2) ]} = Ok c
            ∧ get_cost row3 {[ (0, 1); (0, 2) ]} = Ok c' ∧ c' ≤ c.
Proof.
  assert (({[ (0, 2) ]} : placement) ≠ ∅) as H1 by (vm_compute; discriminate).
  assert (({[ (0, 2) ]} : placement) ⊆ {[ (0, 1); (0, 2) ]}) as H2.
  { intros x Hx. apply elem_of_union_r, Hx. }
  split; [exact H1 |]. split; [exact H2 |].
  exact (get_cost_antitone row3 {[ (0, 2) ]} {[ (0, 1); (0, 2) ]} H1 H2).
Defined.

Lemma get_cost_upper_bound_witness :
  ({[ (0, 2) ]} : placement) ≠ ∅
  ∧ (∀ h, h ∈ houses row3 → in_bounds row3 h)
  ∧ (∀ c, c ∈ ({[ (0, 2) ]} : placement) → in_bounds row3 c)
  ∧ ∃ c, get_cost row3 {[ (0, 2) ]} = Ok c
         ∧ 0 ≤ c ≤ Z.of_nat (size (houses row3)) * (height row3 + width row3 - 2).
Proof.
  assert (({[ (0, 2) ]} : placement) ≠ ∅) as H1 by (vm_compute; discriminate).
  assert (∀ h, h ∈ houses row3 → in_bounds row3 h) as H2
    by (by apply row3_houses_in_bounds).
  assert (∀ c, c ∈ ({[ (0, 2) ]} : placement) → in_bounds row3 c) as H3.
  { intros c Hc. apply elem_of_singleton in Hc as ->. unfold in_bounds. simpl. lia. }
  split; [exact H1 |]. split; [exact H2 |]. split; [exact H3 |].
  exact (get_cost_upper_bound row3 {[ (0, 2) ]} H1 H2 H3).
Defined.

Lemma add_house_cost_witness :
  ({[ (0, 1) ]} : placement) ≠ ∅
  ∧ ∃ c d, get_cost row3 {[ (0, 1) ]} = Ok c
           ∧ py_min (distance (0, 2) <$> elements ({[ (0, 1) ]} : placement)) = Ok d
           ∧ get_cost (add_house row3 0 2) {[ (0, 1) ]}
             = Ok (if decide ((0, 2) ∈ houses row3) then c else c + d).
Proof.
  assert (({[ (0, 1) ]} : placement) ≠ ∅) as H by (vm_compute; discriminate).
  split; [exact H | exact (add_house_cost row3 0 2 {[ (0, 1) ]} H)].
Defined.

Lemma random_restart_best_witness :
  out (random_restart 3 2 row3 []) = Returned (Some {[ (0, 1) ]})
  ∧ length (restart_runs 3 (Z.to_nat 2) row3 []) = Z.to_nat 2
  ∧ ∃ l1 l2 c,
      restart_runs 3 (Z.to_nat 2) row3 [] = l1 ++ {[ (0, 1) ]} :: l2
      ∧ get_cost row3 {[ (0, 1) ]} = Ok c
      ∧ (∀ Q, Q ∈ l1 → ∃ c', get_cost row3 Q = Ok c' ∧ c < c')
      ∧ (∀ Q, Q ∈ l2 → ∃ c', get_cost row3 Q = Ok c' ∧ c ≤ c').
Proof.
  assert (out (random_restart 3 2 row3 []) = Returned (Some {[ (0, 1) ]})) as H
    by (vm_compute; reflexivity).
  split; [exact H | exact (random_restart_best 3 2 row3 [] {[ (0, 1) ]} H)].
Defined.

(** ** The cap and the restarts, in general *)

Lemma climb_None_at_cap (fuel : nat) (maximum : option Z) (cnt : Z)
  (s : Space) (g : rng) :
  out (climb fuel maximum cnt s g) = Returned None →
  ∃ m, maximum = Some m ∧ count (climb fuel maximum cnt s g) = Z.max cnt m.
Proof.
  revert cnt s g. induction fuel as [|fuel IH]; intros cnt s g; simpl.
  - case_decide as Hg; [done |]. intros _. destruct maximum as [m|]; [| done].
    exists m. simpl in *. split; [done | lia].
  - case_decide as Hg.
    + destruct (iteration s g) as [P | s' g' | e]; try done.
      intros (m & -> & Hc)%IH. exists m. split; [done |]. simpl in Hg. lia.
    + intros _. destruct maximum as [m|]; [| done].
      exists m. simpl in *. split; [done | lia].
Qed.

(** X20: [hill_climb] returns [None] only when it was given a cap and the
    loop ended on it: after [maximum] passes, none when [maximum <= 0]. *)
Theorem hill_climb_None_at_cap (fuel : nat) (maximum : option Z) (log : bool)
  (s : Space) (g : rng) :
  out (hill_climb fuel maximum log s g) = Returned None →
  ∃ m, maximum = Some m
       ∧ count (hill_climb fuel maximum log s g) = Z.max 0 m.
Proof.
  unfold hill_climb.
  destruct (random_sample g (elements (available_spaces s)) (num_hospitals s))
    as [[xs | e] g']; [| done].
  destruct (if log then _ else _); [| done]. apply climb_None_at_cap.
Qed.

(** After a run that got past its sample the available cells are the
    house-free cells of the grid less [num_hospitals]. *)
Lemma available_after_run (fuel : nat) (maximum : option Z) (log : bool)
  (s : Space) (g : rng) :
  0 ≤ num_hospitals s ≤ Z.of_nat (size (available_spaces s)) →
  Z.of_nat (size (available_spaces (final (hill_climb fuel maximum log s g))))
  = Z.of_nat (size (grid_cells s ∖ houses s)) - num_hospitals s.
Proof.
  intros Hk.
  destruct (placement_invariant fuel maximum log s g Hk) as (Hsz & Hcells & _).
  rewrite hill_climb_final. revert Hsz Hcells.
  generalize (hospitals (final (hill_climb fuel maximum log s g))).
  intros P Hsz Hcells. unfold available_spaces. simpl.
  assert (grid_cells (set_hospitals s P) = grid_cells s) as -> by done.
  assert (P ⊆ grid_cells s ∖ houses s) as Hsub.
  { intros c Hc. destruct (Hcells c Hc) as [Hb Hn].
    apply elem_of_difference. split; [by apply elem_of_grid_cells | done]. }
  rewrite size_difference by done.
  pose proof (subseteq_size _ _ Hsub). lia.
Qed.

(** X21: when fewer than [2 * num_hospitals] cells of the grid are free of
    houses, a [random_restart] of two rounds or more never returns a
    placement: the second run finds too few available cells, the first
    run's hospitals still being in place. *)
Theorem random_restart_needs_room (fuel : nat) (maximum : Z) (s : Space) (g : rng)
  (P : placement) :
  2 ≤ maximum →
  Z.of_nat (size (grid_cells s ∖ houses s)) < 2 * num_hospitals s →
  out (random_restart fuel maximum s g) ≠ Returned (Some P).
Proof.
  intros Hm Hroom Hout. unfold random_restart in Hout.
  destruct (restarts_best _ _ _ _ _ _ _ Hout) as [Hlen _].
  destruct (Z.to_nat maximum) as [|[|n]] eqn:E; [lia | lia |].
  simpl in Hlen.
  destruct (decide (0 ≤ num_hospitals s ≤ Z.of_nat (size (available_spaces s))))
    as [Hk | Hk].
  2:{ rewrite (sample_out_of_range fuel None false s g Hk) in Hlen. done. }
  pose proof (available_after_run fuel None false s g Hk) as Hav.
  assert (num_hospitals (final (hill_climb fuel None false s g))
          = num_hospitals s) as Hnum by (by rewrite hill_climb_final).
  destruct (out (hill_climb fuel None false s g)) as [[P0|] | e |]; try done.
  rewrite sample_out_of_range in Hlen; [done |].
  rewrite Hnum. lia.
Qed.

Lemma hill_climb_None_at_cap_witness :
  out (hill_climb 5 (Some 1) false row3 []) = Returned None
  ∧ ∃ m, Some 1 = Some m
         ∧ count (hill_climb 5 (Some 1) false row3 []) = Z.max 0 m.
Proof.
  assert (out (hill_climb 5 (Some 1) false row3 []) = Returned None) as H
    by (vm_compute; reflexivity).
  split; [exact H | exact (hill_climb_None_at_cap 5 (Some 1) false row3 [] H)].
Defined.

Lemma random_restart_needs_room_witness :
  2 ≤ 2
  ∧ Z.of_nat (size (grid_cells strip ∖ houses strip)) < 2 * num_hospitals strip
  ∧ out (random_restart 3 2 strip []) ≠ Returned (Some {[ (0, 0); (0, 1) ]}).
Proof.
  assert (2 ≤ 2) as H1 by (vm_compute; discriminate).
  assert (Z.of_nat (size (grid_cells strip ∖ houses strip))
          < 2 * num_hospitals strip) as H2 by (vm_compute; reflexivity).
  split; [exact H1 |]. split; [exact H2 |].
  exact (random_restart_needs_room 3 2 strip [] {[ (0, 0); (0, 1) ]} H1 H2).
Defined.
